(** * A shallow embedding of [src/src/utils/functions.ts]
    (uwebsockets-js-helpers): the header extractor, the byte-stream
    bridge [ResDataToStream], the buffered materializer [stob], the
    per-file handler and the dispatcher of [parseData].

    JavaScript values are modelled as an inductive type in which arrays
    and plain objects are both property lists keyed by strings, as in
    JavaScript.  The lodash helpers the source uses ([set], [get], [has],
    [isArray]) are embedded from lodash 4.17.21, including its path
    parser [stringToPath] and its [isKey] test, because the source hands
    client-controlled strings to them. *)

From Stdlib Require Import String Ascii List Bool Arith Lia NArith ZArith DecimalString Permutation.
From Stdlib Require DecimalFacts DecimalPos.
Import ListNotations.
Open Scope string_scope.
#[local] Set Warnings "-register-all".

(** ** JavaScript values *)

Inductive jv : Type :=
| JUndef
| JNull
| JBool (b : bool)
| JNum (n : Z)
| JStr (s : string)
(** an object; [arr = true] for an Array; properties in insertion order *)
| JObj (arr : bool) (props : list (string * jv)).

Module Str.
(** character classes and small string helpers *)
Definition chr (n : nat) : ascii := ascii_of_nat n.

Definition is_dot (c : ascii) : bool := Ascii.eqb c ".".
Definition is_lbr (c : ascii) : bool := Ascii.eqb c "[".
Definition is_rbr (c : ascii) : bool := Ascii.eqb c "]".
Definition is_quote (c : ascii) : bool :=
  Ascii.eqb c (chr 34) || Ascii.eqb c (chr 39).
Definition is_bslash (c : ascii) : bool := Ascii.eqb c (chr 92).
(** the characters the regex [.] does not match *)
Definition is_line_term (c : ascii) : bool :=
  Ascii.eqb c (chr 10) || Ascii.eqb c (chr 13).
(** [.], [\[] and [\]]: the characters [[^.[\]]] excludes *)
Definition is_special (c : ascii) : bool := is_dot c || is_lbr c || is_rbr c.

(** [\w] *)
Definition is_word (c : ascii) : bool :=
  let n := nat_of_ascii c in
  (Nat.leb 48 n && Nat.leb n 57) || (Nat.leb 65 n && Nat.leb n 90)
  || (Nat.leb 97 n && Nat.leb n 122) || Nat.eqb n 95.

Fixpoint has (p : ascii -> bool) (s : string) : bool :=
  match s with
  | EmptyString => false
  | String c r => p c || has p r
  end.

Fixpoint all (p : ascii -> bool) (s : string) : bool :=
  match s with
  | EmptyString => true
  | String c r => p c && all p r
  end.

(** [String.prototype.toLowerCase] on ASCII *)
Definition lower_char (c : ascii) : ascii :=
  let n := nat_of_ascii c in
  if Nat.leb 65 n && Nat.leb n 90 then ascii_of_nat (n + 32) else c.

Fixpoint to_lower (s : string) : string :=
  match s with
  | EmptyString => EmptyString
  | String c r => String (lower_char c) (to_lower r)
  end.

(** white space removed by [String.prototype.trim] (the 8-bit part of it) *)
Definition is_ws (c : ascii) : bool :=
  let n := nat_of_ascii c in
  Nat.eqb n 32 || (Nat.leb 9 n && Nat.leb n 13) || Nat.eqb n 160.

Fixpoint trim_start (s : string) : string :=
  match s with
  | String c r => if is_ws c then trim_start r else s
  | EmptyString => EmptyString
  end.

Fixpoint trim_end (s : string) : string :=
  match s with
  | EmptyString => EmptyString
  | String c r =>
      let r' := trim_end r in
      if is_ws c && String.eqb r' "" then "" else String c r'
  end.

Definition trim (s : string) : string := trim_end (trim_start s).

(** [String.prototype.startsWith] *)
Definition starts_with (pre s : string) : bool := String.prefix pre s.
End Str.

(** ** lodash 4.17.21: [stringToPath]

    [rePropName] has three alternatives: a run of characters other than
    dot and brackets; a bracketed segment, either unquoted or quoted with
    a single or double quote (backslash escapes inside the quotes); an
    empty match before a dot or an empty bracket pair that is followed by
    another one or by the end.  It is run by [String.prototype.replace]: the alternatives are tried in order
    at each position; a position where none matches is skipped; after an
    empty match the search resumes one character further. *)
Module Lodash.
Import Str.

(** first alternative: a maximal run of characters other than [.[]] *)
Fixpoint take_plain (s : string) : string * string :=
  match s with
  | EmptyString => (EmptyString, EmptyString)
  | String c r =>
      if is_special c then (EmptyString, s)
      else let (a, b) := take_plain r in (String c a, b)
  end.

(** [[^[]*\]] after the first character of an unquoted bracket: greedy,
    so the match ends at the last [\]] before the next [\[] *)
Fixpoint bracket_body (t : string) : option (string * string) :=
  match t with
  | EmptyString => None
  | String c r =>
      if is_lbr c then None
      else match bracket_body r with
           | Some (body, rest) => Some (String c body, rest)
           | None => if is_rbr c then Some (EmptyString, r) else None
           end
  end.

(** the quoted body after the opening quote [q]: tokens that are a
    character other than [q] and backslash, or a backslash and a
    character other than a line terminator; lazy, so the match ends at
    the first [q] directly followed by a closing bracket *)
Fixpoint quoted_body (q : ascii) (t : string) : option (string * string) :=
  match t with
  | EmptyString => None
  | String c r =>
      match r with
      | String d r' =>
          if Ascii.eqb c q && is_rbr d then Some (EmptyString, r')
          else if is_bslash c then
            if is_line_term d then None
            else match quoted_body q r' with
                 | Some (body, rest) => Some (String c (String d body), rest)
                 | None => None
                 end
          else if Ascii.eqb c q then None
          else match quoted_body q r with
               | Some (body, rest) => Some (String c body, rest)
               | None => None
               end
      | EmptyString => None
      end
  end.

(** [reEscapeChar] replacement: a backslash followed by an optional
    second backslash is replaced by that second backslash *)
Fixpoint unescape (s : string) : string :=
  match s with
  | EmptyString => EmptyString
  | String c r =>
      if is_bslash c then
        match r with
        | String d r' => if is_bslash d then String d (unescape r') else unescape r
        | EmptyString => EmptyString
        end
      else String c (unescape r)
  end.

(** second alternative, at a [\[] *)
Definition bracket_match (s : string) : option (string * string) :=
  match s with
  | String b (String c t) =>
      if is_lbr b then
        if is_quote c then
          match quoted_body c t with
          | Some (sub, rest) => Some (unescape sub, rest)
          | None => None
          end
        else
          match bracket_body t with
          | Some (body, rest) => Some (String c body, rest)
          | None => None
          end
      else None
  | _ => None
  end.

(** [(?:\.|\[\])] at the start of [s]; the rest after it *)
Definition dot_or_empty_brackets (s : string) : option string :=
  match s with
  | String c r =>
      if is_dot c then Some r
      else if is_lbr c then
        match r with
        | String d r' => if is_rbr d then Some r' else None
        | EmptyString => None
        end
      else None
  | EmptyString => None
  end.

(** third alternative: the look-ahead [(?=(?:\.|\[\])(?:\.|\[\]|$))] *)
Definition empty_prop_ahead (s : string) : bool :=
  match dot_or_empty_brackets s with
  | Some EmptyString => true
  | Some r => match dot_or_empty_brackets r with Some _ => true | None => false end
  | None => false
  end.

Fixpoint stp_go (fuel : nat) (s : string) : list string :=
  match fuel with
  | O => []
  | S f =>
      match s with
      | EmptyString => []
      | String _ r =>
          let (run, rest) := take_plain s in
          match run with
          | String _ _ => run :: stp_go f rest
          | EmptyString =>
              match bracket_match s with
              | Some (seg, rest') => seg :: stp_go f rest'
              | None => if empty_prop_ahead s then "" :: stp_go f r else stp_go f r
              end
          end
      end
  end.

Definition string_to_path (s : string) : list string :=
  match s with
  | String c _ => if is_dot c then "" :: stp_go (S (String.length s)) s
                 else stp_go (S (String.length s)) s
  | EmptyString => []
  end.

(** [reIsDeepProp]: a dot, or an opening bracket followed by characters
    other than brackets and a closing bracket.  Its third, quoted
    alternative adds nothing: the quoted form always contains such an
    unquoted bracket pair (take the last opening bracket before its
    closing one). *)
Fixpoint closes_plain (s : string) : bool :=
  match s with
  | EmptyString => false
  | String c r => if is_rbr c then true else if is_lbr c then false else closes_plain r
  end.

Fixpoint is_deep_prop (s : string) : bool :=
  match s with
  | EmptyString => false
  | String c r => is_dot c || (is_lbr c && closes_plain r) || is_deep_prop r
  end.

(** [reIsPlainProp]: only word characters *)
Definition is_plain_prop (s : string) : bool := all is_word s.

(** [isIndex(value)] on a string: [0], or a nonzero digit followed by
    digits ([reIsUint]), below [MAX_SAFE_INTEGER] *)
Fixpoint digits_val (s : string) (acc : N) : option N :=
  match s with
  | EmptyString => Some acc
  | String c r =>
      let n := nat_of_ascii c in
      if Nat.leb 48 n && Nat.leb n 57
      then digits_val r (acc * 10 + N.of_nat (n - 48))%N else None
  end.

Definition parse_index (k : string) : option N :=
  match k with
  | String c r =>
      let n := nat_of_ascii c in
      if Nat.eqb n 48 then (match r with EmptyString => Some 0%N | _ => None end)
      else if Nat.leb 49 n && Nat.leb n 57 then
        match digits_val k 0 with
        | Some v => if (v <? 9007199254740991)%N then Some v else None
        | None => None
        end
      else None
  | EmptyString => None
  end.

Definition is_index (k : string) : bool :=
  match parse_index k with Some _ => true | None => false end.

(** an array index: a canonical decimal string below [2^32 - 1] *)
Definition array_index (k : string) : option N :=
  match parse_index k with
  | Some i => if (i <? 4294967295)%N then Some i else None
  | None => None
  end.

Definition N_to_string (n : N) : string :=
  NilEmpty.string_of_uint (N.to_uint n).

(** *** [ToNumber]

    A Number is kept as the exact value of the text it was read from:
    [NaN], an infinity, or [(-1)^neg * m * 10^e].  Rounding to a double
    only matters to the one use below, the [length] test, which does it. *)
Inductive num := NaN | Inf (neg : bool) | Dec (neg : bool) (m : N) (e : Z).

Definition is_digit (c : ascii) : bool :=
  let n := nat_of_ascii c in Nat.leb 48 n && Nat.leb n 57.

(** the [DecimalDigits] at the start of [s]: their value appended to
    [acc], how many there are, and the rest of [s] *)
Fixpoint dec_digits (s : string) (acc : N) (cnt : nat) : N * nat * string :=
  match s with
  | String c r =>
      if is_digit c then dec_digits r (acc * 10 + N.of_nat (nat_of_ascii c - 48))%N (S cnt)
      else (acc, cnt, s)
  | EmptyString => (acc, cnt, s)
  end.

(** the value of a hexadecimal digit *)
Definition hex_val (c : ascii) : option N :=
  let n := nat_of_ascii c in
  if Nat.leb 48 n && Nat.leb n 57 then Some (N.of_nat (n - 48))
  else if Nat.leb 97 n && Nat.leb n 102 then Some (N.of_nat (n - 87))
  else if Nat.leb 65 n && Nat.leb n 70 then Some (N.of_nat (n - 55))
  else None.

(** all of [s] as digits of base [b] *)
Fixpoint radix_val (b : N) (s : string) (acc : N) : option N :=
  match s with
  | EmptyString => Some acc
  | String c r =>
      match hex_val c with
      | Some d => if (d <? b)%N then radix_val b r (acc * b + d)%N else None
      | None => None
      end
  end.

(** an [ExponentPart] that makes up all of [s]; [Some 0] for none *)
Definition exponent (s : string) : option Z :=
  match s with
  | EmptyString => Some 0%Z
  | String c r =>
      if Ascii.eqb c "e" || Ascii.eqb c "E" then
        let '(neg, t) := match r with
                         | String d t => if Ascii.eqb d "+" then (false, t)
                                         else if Ascii.eqb d "-" then (true, t) else (false, r)
                         | EmptyString => (false, r)
                         end in
        match dec_digits t 0 0 with
        | (v, S _, EmptyString) => Some (if neg then (- Z.of_N v)%Z else Z.of_N v)
        | _ => None
        end
      else None
  end.

(** a [StrUnsignedDecimalLiteral] that makes up all of [u] *)
Definition unsigned_decimal (neg : bool) (u : string) : num :=
  if String.eqb u "Infinity" then Inf neg else
  let '(m1, i, r1) := dec_digits u 0 0 in
  let '(m, f, r2) := match r1 with
                     | String c r => if Ascii.eqb c "." then dec_digits r m1 0 else (m1, 0, r1)
                     | EmptyString => (m1, 0, r1)
                     end in
  if Nat.eqb (i + f) 0 then NaN
  else match exponent r2 with
       | Some x => Dec neg m (x - Z.of_nat f)
       | None => NaN
       end.

(** a [StrDecimalLiteral]: an optional sign, then the unsigned part *)
Definition signed_decimal (t : string) : num :=
  match t with
  | String c r =>
      if Ascii.eqb c "+" then unsigned_decimal false r
      else if Ascii.eqb c "-" then unsigned_decimal true r
      else unsigned_decimal false t
  | EmptyString => NaN
  end.

(** a [NonDecimalIntegerLiteral] after its prefix *)
Definition radix_literal (b : N) (body : string) : num :=
  match body with
  | EmptyString => NaN
  | _ => match radix_val b body 0 with Some v => Dec false v 0 | None => NaN end
  end.

(** [StringToNumber]: white space around the literal is ignored, and a
    text of white space only is 0 *)
Definition string_to_number (s : string) : num :=
  match Str.trim s with
  | EmptyString => Dec false 0 0
  | String c r as t =>
      match r with
      | String x body =>
          if Ascii.eqb c "0" then
            if Ascii.eqb x "x" || Ascii.eqb x "X" then radix_literal 16 body
            else if Ascii.eqb x "o" || Ascii.eqb x "O" then radix_literal 8 body
            else if Ascii.eqb x "b" || Ascii.eqb x "B" then radix_literal 2 body
            else signed_decimal t
          else signed_decimal t
      | EmptyString => signed_decimal t
      end
  end.

(** own properties of a value *)
Fixpoint assoc (k : string) (ps : list (string * jv)) : option jv :=
  match ps with
  | [] => None
  | (k', v) :: ps' => if String.eqb k k' then Some v else assoc k ps'
  end.

Fixpoint put (k : string) (v : jv) (ps : list (string * jv)) : list (string * jv) :=
  match ps with
  | [] => [(k, v)]
  | (k', v') :: ps' => if String.eqb k k' then (k', v) :: ps' else (k', v') :: put k v ps'
  end.

(** the [length] an array gets from its elements: one more than its
    largest index *)
Definition arr_len (ps : list (string * jv)) : N :=
  fold_left (fun m kv => match array_index (fst kv) with
                         | Some i => N.max m (i + 1) | None => m end) ps 0%N.

(** the [length] of an array: [arr_len], or the value last given to
    [length] when that is larger (kept as a [length] entry, see
    [set_length]) *)
Definition arr_length (ps : list (string * jv)) : N :=
  N.max (arr_len ps) (match assoc "length" ps with Some (JNum z) => Z.to_N z | _ => 0%N end).

Definition is_object (v : jv) : bool :=
  match v with JObj _ _ => true | _ => false end.

Definition is_array (v : jv) : bool :=
  match v with JObj true _ => true | _ => false end.

(** [hasOwnProperty.call(v, k)] *)
Definition has_own (v : jv) (k : string) : bool :=
  match v with
  | JObj a ps =>
      match assoc k ps with
      | Some _ => true
      | None => a && String.eqb k "length"
      end
  | JStr s =>
      match parse_index k with
      | Some i => (i <? N.of_nat (String.length s))%N
      | None => String.eqb k "length"
      end
  | _ => false
  end.

(** [v[k]] (members inherited from the prototypes are not modelled) *)
Definition read (v : jv) (k : string) : jv :=
  match v with
  | JObj a ps =>
      if a && String.eqb k "length" then JNum (Z.of_N (arr_length ps))
      else match assoc k ps with
           | Some x => x
           | None => JUndef
           end
  | JStr s =>
      match parse_index k with
      | Some i => match String.get (N.to_nat i) s with
                 | Some c => JStr (String c EmptyString)
                 | None => JUndef
                 end
      | None => if String.eqb k "length" then JNum (Z.of_nat (String.length s)) else JUndef
      end
  | _ => JUndef
  end.

(** [ToNumber(v)].  An object goes through its [toString]: ["[object
    Object]"] for a plain object, [join(',')] for an array, which is
    empty for no element, the text of the only element ([undefined] and
    [null] give the empty text), and has a comma, so is not a number, for
    two elements or more.  (Own [valueOf] or [toString] members, which no
    value handed to it by the code has, are not modelled.) *)
Fixpoint to_number (v : jv) : num :=
  match v with
  | JUndef => NaN
  | JNull => Dec false 0 0
  | JBool b => Dec false (if b then 1 else 0) 0
  | JNum z => Dec (z <? 0)%Z (Z.to_N (Z.abs z)) 0
  | JStr s => string_to_number s
  | JObj false _ => NaN
  | JObj true ps =>
      let n := arr_length ps in
      if (n =? 0)%N then Dec false 0 0
      else if (1 <? n)%N then NaN
      else (fix elem0 (l : list (string * jv)) : num :=
              match l with
              | [] => Dec false 0 0
              | (k, x) :: l' =>
                  if String.eqb k "0" then
                    match x with
                    | JUndef | JNull => Dec false 0 0
                    | JBool _ => NaN
                    | _ => to_number x
                    end
                  else elem0 l'
              end) ps
  end.

(** the test of [ArraySetLength], [ToUint32(v) = ToNumber(v)]: the double
    nearest to the value (ties to even) must be an integer below [2^32].
    [None] is the [RangeError].  A value below [2^-1075] in magnitude
    rounds to zero; one in [[2^k, 2^(k+1))] rounds to a multiple of
    [2^(k-52)]. *)
Definition uint32_of (x : num) : option N :=
  match x with
  | NaN | Inf _ => None
  | Dec neg m e =>
      if (m =? 0)%N then Some 0%N
      else if (10 <=? e)%Z then None
      else
        let a := (Z.of_N m * 10 ^ Z.max e 0)%Z in
        let b := (10 ^ Z.max (- e) 0)%Z in
        if (a * 2 ^ 1075 <=? b)%Z then Some 0%N
        else if neg then None
        else if (b * 2 ^ 32 <=? a)%Z then None
        else if (2 * a <? b)%Z then None
        else
          let fl := (a / b)%Z in
          let k := if (fl =? 0)%Z then (-1)%Z else Z.log2 fl in
          let sh := (52 - k)%Z in
          let q := (a * 2 ^ sh / b)%Z in
          let r := (a * 2 ^ sh mod b)%Z in
          let q' := if (b <? 2 * r)%Z then (q + 1)%Z
                    else if (2 * r =? b)%Z then (if Z.even q then q else q + 1)%Z
                    else q in
          if (q' mod 2 ^ sh =? 0)%Z && (q' / 2 ^ sh <? 2 ^ 32)%Z
          then Some (Z.to_N (q' / 2 ^ sh)) else None
  end.

Definition array_length_of (v : jv) : option N := uint32_of (to_number v).

(** [ArraySetLength] with a valid new length [n]: the elements from [n]
    on are deleted; [n] is kept as a [length] entry when it is larger
    than [arr_len] of what remains *)
Definition set_length (n : N) (ps : list (string * jv)) : list (string * jv) :=
  let ps' := filter (fun kv => negb (String.eqb (fst kv) "length")
                               && match array_index (fst kv) with
                                  | Some i => (i <? n)%N
                                  | None => true
                                  end) ps in
  if (arr_len ps' <? n)%N then ps' ++ [("length", JNum (Z.of_N n))] else ps'.

(** equality of primitive values ([eq] in lodash) *)
Definition same_prim (a b : jv) : bool :=
  match a, b with
  | JUndef, JUndef | JNull, JNull => true
  | JBool x, JBool y => Bool.eqb x y
  | JNum x, JNum y => Z.eqb x y
  | JStr x, JStr y => String.eqb x y
  | _, _ => false
  end.

(** [assignValue(v, k, x)], that is [v[k] = x] unless [v] already has an
    own [k] equal to [x] (elsewhere than at an array's [length], storing
    an equal value changes nothing anyway).  The [length] of an array
    goes through [ArraySetLength], which throws a [RangeError] ([None])
    when [x] is not a valid length.  An assignment to a primitive is
    ignored: lodash is not strict code. *)
Definition assign (v : jv) (k : string) (x : jv) : option jv :=
  match v with
  | JObj true ps =>
      if String.eqb k "length" then
        if same_prim (JNum (Z.of_N (arr_length ps))) x then Some v
        else match array_length_of x with
             | Some n => Some (JObj true (set_length n ps))
             | None => None
             end
      else Some (JObj true (put k x ps))
  | JObj false ps => Some (JObj false (put k x ps))
  | _ => Some v
  end.

(** the object [o[k]] was mutated in place: [o] sees the new version *)
Definition store (o : jv) (k : string) (x : jv) : jv :=
  match o with
  | JObj a ps => JObj a (put k x ps)
  | _ => o
  end.

(** [isKey(p, o)]; [p in Object(o)] is decided on own keys: only a deep
    string reaches that test, and no prototype member has a deep name *)
Definition is_key (p : string) (o : jv) : bool :=
  is_plain_prop p || negb (is_deep_prop p)
  || match o with JObj _ ps => match assoc p ps with Some _ => true | None => false end
                | _ => false end.

(** [castPath(p, o)] *)
Definition cast_path (p : string) (o : jv) : list string :=
  if is_key p o then [p] else string_to_path p.

Definition is_proto_key (k : string) : bool :=
  String.eqb k "__proto__" || String.eqb k "constructor" || String.eqb k "prototype".

(** [baseSet] after [castPath].  The loop assigns the value found or
    created for an intermediate step ([[]] when the next key is an index)
    and goes on with [nested = nested[key]], the same object, mutated in
    place.  After an assignment to an array's [length], [nested] is a
    number: the next assignment is ignored and [nested[key]] is
    [undefined], which ends the loop.  [None]: an assignment threw. *)
Fixpoint base_set (nested : jv) (path : list string) (x : jv) : option jv :=
  match path with
  | [] => Some nested
  | k :: rest =>
      if is_proto_key k then Some nested
      else match rest with
           | [] => assign nested k x
           | k' :: _ =>
               let objv := read nested k in
               let nv := if is_object objv then objv
                         else if is_index k' then JObj true [] else JObj false [] in
               match assign nested k nv with
               | None => None
               | Some nested1 =>
                   match read nested1 k with
                   | JObj a qs =>
                       match base_set (JObj a qs) rest x with
                       | Some child => Some (store nested1 k child)
                       | None => None
                       end
                   | _ => Some nested1
                   end
               end
           end
  end.

(** [_.set(o, p, x)] *)
Definition set (o : jv) (p : string) (x : jv) : option jv :=
  if is_object o then base_set o (cast_path p o) x else Some o.

(** [baseGet] *)
Fixpoint get_path (o : jv) (path : list string) : jv :=
  match path with
  | [] => o
  | k :: rest =>
      match o with
      | JUndef | JNull => JUndef
      | _ => get_path (read o k) rest
      end
  end.

(** [_.get(o, p)] and [_.get(o, p, d)] *)
Definition get (o : jv) (p : string) : jv :=
  match o with
  | JUndef | JNull => JUndef
  | _ => match cast_path p o with
         | [] => JUndef
         | path => get_path o path
         end
  end.

Definition get_default (o : jv) (p : string) (d : jv) : jv :=
  match get o p with JUndef => d | x => x end.

(** [hasPath(o, path, baseHas)] *)
Fixpoint has_path (o : jv) (path : list string) : bool :=
  match path with
  | [] => false
  | [k] =>
      has_own o k
      || match o, parse_index k with
         | JObj true ps, Some i => (0 <? arr_length ps)%N && (i <? arr_length ps)%N
         | _, _ => false
         end
  | k :: rest => has_own o k && has_path (read o k) rest
  end.

(** [_.has(o, p)] *)
Definition has (o : jv) (p : string) : bool :=
  match o with
  | JUndef | JNull => false
  | _ => has_path o (cast_path p o)
  end.

(** [Array.prototype.push]: setting [length] to [2^32] throws a
    [RangeError] *)
Definition push (a : jv) (x : jv) : option jv :=
  match a with
  | JObj true ps =>
      let n := arr_length ps in
      if (n <? 4294967295)%N then Some (JObj true (put (N_to_string n) x ps)) else None
  | _ => Some a
  end.
End Lodash.

(** ** Metadata extraction: the [req.forEach] loop of [parseData] *)
Module Headers.
Import Lodash.

(** one call of the [req.forEach] callback; [val.push(value)] mutates
    the array [get] found, which [set] then stores at the same path.
    [None]: [set] or [push] threw. *)
Definition header_step (headers : jv) (kv : string * string) : option jv :=
  let key := Str.to_lower (fst kv) in
  let value := JStr (snd kv) in
  if negb (has headers key) then set headers key value
  else
    let val := get headers key in
    match (if is_array val then push val value else Some (JObj true [("0", val)])) with
    | Some val' => set headers key val'
    | None => None
    end.

(** [req.forEach] visits the header pairs in arrival order; an exception
    of the callback leaves the loop and makes [parseData] reject *)
Definition extract_headers (pairs : list (string * string)) : option jv :=
  fold_left (fun acc kv => match acc with Some h => header_step h kv | None => None end)
    pairs (Some (JObj false [])).
End Headers.

(** ** Promises: the first [resolve] or [reject] call settles, later calls
    are ignored *)
Inductive settled (A E : Type) : Type :=
| Pending
| Resolved (a : A)
| Rejected (e : E).
Arguments Pending {A E}.
Arguments Resolved {A E} a.
Arguments Rejected {A E} e.

Definition settle {A E} (p : settled A E) (q : settled A E) : settled A E :=
  match p with Pending => q | _ => p end.

(** ** [ResDataToStream]: the byte-stream bridge *)
Module Bridge.
Definition bytes := list Byte.byte.

(** the transport side of an [HttpResponse]: whether it was aborted, and
    the [(chunk, isLast)] pairs it still has to deliver *)
Record uws_res := { aborted : bool; incoming : list (bytes * bool) }.

(** uWS.js throws on any use of an aborted response, [res.onData]
    included ([None]) *)
Definition deliveries (res : uws_res) : option (list (bytes * bool)) :=
  if aborted res then None else Some (incoming res).

(** what the bridge pushes into its [Readable]: [stream.push(chunk)] or
    [stream.push(null)] *)
Inductive push := PChunk (b : bytes) | PEnd.

(** the [res.onData] callback registered by [_read] *)
Definition on_data (d : bytes * bool) : list push :=
  PChunk (fst d) :: (if snd d then [PEnd] else []).

(** a pull: [_read] registers the callback, the transport calls it;
    [None]: [_read] threw *)
Definition pull (res : uws_res) : option (list push) :=
  match deliveries res with
  | Some ds => Some (flat_map on_data ds)
  | None => None
  end.
End Bridge.

(** ** [writeHeaders]: the [res.writeHeader(name, value)] calls it makes *)
Module Write.
(** the [headers] argument: a string, or an object of string values
    (its own properties, in creation order, with distinct names) *)
Inductive header_arg := HName (name : string) | HRecord (props : list (string * string)).

(** an array index: a canonical decimal string below [2^32 - 1] *)
Definition array_index (k : string) : option N :=
  match Lodash.parse_index k with
  | Some i => if (i <? 4294967295)%N then Some i else None
  | None => None
  end.

Definition is_array_index (k : string) : bool :=
  match array_index k with Some _ => true | None => false end.

Definition index_leb (k k' : string) : bool :=
  match array_index k, array_index k' with
  | Some i, Some j => (i <=? j)%N
  | _, _ => true
  end.

Fixpoint insert_key (k : string) (ks : list string) : list string :=
  match ks with
  | [] => [k]
  | k' :: ks' => if index_leb k k' then k :: ks else k' :: insert_key k ks'
  end.

(** the order of [for (const n in headers)] on a plain object: the array
    indices in increasing order, then the other names in creation order *)
Definition for_in_keys (props : list (string * string)) : list string :=
  let ks := map fst props in
  fold_right insert_key [] (filter is_array_index ks)
  ++ filter (fun k => negb (is_array_index k)) ks.

Fixpoint lookup (k : string) (props : list (string * string)) : option string :=
  match props with
  | [] => None
  | (k', v) :: ps => if String.eqb k k' then Some v else lookup k ps
  end.

(** [typeof headers === 'string' && typeof other === 'string'], else
    [typeof headers === 'object'] with a [for ... in] loop; [headers[n]]
    is a string, whose [toString()] is itself *)
Definition writeHeaders (headers : header_arg) (other : option string) : list (string * string) :=
  match headers with
  | HName h => match other with Some o => [(h, o)] | None => [] end
  | HRecord ps =>
      flat_map (fun n => match lookup n ps with Some v => [(n, v)] | None => [] end) (for_in_keys ps)
  end.
End Write.

(** ** [stob]: the buffered materializer

    Buffers are references into a heap, so that the copy made by
    [Buffer.from(buffer)] on each chunk is visible. *)
Module Stob.
Definition bytes := list Byte.byte.
Definition heap := list bytes.

Definition deref (h : heap) (r : nat) : bytes := nth r h [].
Definition alloc (h : heap) (b : bytes) : nat * heap := (List.length h, (h ++ [b])%list).

(** events of the [Readable]: a [data] event carries a buffer reference *)
Inductive event := SData (r : nat) | SEnd | SError.

Record state := mk {
  has_ended : bool;
  buffers : option (list nat);     (** [null] after the size check fails *)
  length : nat;
  outcome : settled nat string;    (** the promise of [stob] *)
  destroyed : bool;                (** [stream.destroy()] was called *)
  mem : heap
}.

Definition init (h : heap) : state := mk false (Some []) 0 Pending false h.

(** the [data] listener *)
Definition on_data (maxSize : nat) (st : state) (r : nat) : state :=
  match buffers st with
  | Some bs =>
      if has_ended st then st
      else
        let (r', h') := alloc (mem st) (deref (mem st) r) in
        let bs' := (bs ++ [r'])%list in
        if Nat.eqb maxSize 0 then
          mk (has_ended st) (Some bs') (length st) (outcome st) (destroyed st) h'
        else
          let len' := length st + List.length (deref h' r') in
          if Nat.ltb maxSize len' then
            mk true None len' (settle (outcome st) (Rejected "MAX_SIZE_EXCEEDED")) true h'
          else mk (has_ended st) (Some bs') len' (outcome st) (destroyed st) h'
  | None => st
  end.

(** the [end] listener *)
Definition on_end (st : state) : state :=
  match buffers st with
  | Some bs =>
      match bs with
      | [] => let (r, h') := alloc (mem st) [] in
              mk true (Some bs) (length st) (settle (outcome st) (Resolved r)) (destroyed st) h'
      | [r] => mk true (Some bs) (length st) (settle (outcome st) (Resolved r)) (destroyed st) (mem st)
      | _ => let (r, h') := alloc (mem st) (concat (map (deref (mem st)) bs)) in
             mk true (Some bs) (length st) (settle (outcome st) (Resolved r)) (destroyed st) h'
      end
  | None => mk true (buffers st) (length st) (outcome st) (destroyed st) (mem st)
  end.

(** [stob] registers no [error] listener: an [error] event leaves its
    state alone (the emitter throws, outside of [stob]) *)
Definition step (maxSize : nat) (st : state) (e : event) : state :=
  match e with
  | SData r => on_data maxSize st r
  | SEnd => on_end st
  | SError => st
  end.

Definition run (maxSize : nat) (h : heap) (es : list event) : state :=
  fold_left (step maxSize) es (init h).
End Stob.

(** ** [parseData] *)
Module Parse.
Import Lodash.
Definition bytes := list Byte.byte.

(** [FileInfo]; [file] is the part's byte source, as its chunks *)
Record FileInfo := {
  fieldname : string; filename : string; encoding : string;
  mimetype : string; file : list bytes
}.

(** a slot of [customBodyOptions]: absent, a static value, or a function
    of the [FileInfo] ([None] when the function throws or rejects) *)
Inductive hook (A : Type) : Type :=
| HNone
| HStatic (a : A)
| HFun (f : FileInfo -> option A).
Arguments HNone {A}.
Arguments HStatic {A} a.
Arguments HFun {A} f.

Record CustomBodyOptions := {
  cb_handle : hook bool; cb_tmpDir : hook string;
  cb_folder : hook string; cb_saveAs : hook string
}.

Record ParseDataOptions := {
  namespace : option string;
  opt_headers : option bool; opt_body : option bool; opt_query : option bool;
  opt_path : option bool; opt_method : option bool;
  (** [bodyOptions.limits.fieldSize], when given *)
  field_size : option nat;
  customBodyOptions : option CustomBodyOptions
}.

Record Request := {
  req_headers : list (string * string);  (** as [req.forEach] visits them *)
  req_query : string; req_method : string; req_url : string
}.

Record ParsedData := {
  out_headers : option jv; out_query : option jv;
  out_path : option string; out_method : option string;
  out_body : option jv
}.

(** the file system: each path is a file, a directory or a symbolic link
    to another path.  Paths are compared as strings: a link is resolved
    where a path names it itself, not among its parent directories
    (special files are not modelled). *)
Inductive node := NFile (content : bytes) | NDir | NLink (target : string).
Definition fsys := list (string * node).

Fixpoint fs_lookup (fs : fsys) (p : string) : option node :=
  match fs with
  | [] => None
  | (q, n) :: fs' => if String.eqb p q then Some n else fs_lookup fs' p
  end.

Definition fs_put (fs : fsys) (p : string) (n : node) : fsys := (p, n) :: fs.

(** the path [p] leads to once its links are followed, and what is
    there; [None] ([ELOOP]) when a 41st link is met *)
Fixpoint follow (fuel : nat) (fs : fsys) (p : string) : option (string * option node) :=
  match fs_lookup fs p with
  | Some (NLink t) => match fuel with 0 => None | S f => follow f fs t end
  | n => Some (p, n)
  end.

(** [stat(p).isDirectory()] *)
Definition is_dir (fs : fsys) (p : string) : bool :=
  match follow 40 fs p with Some (_, Some NDir) => true | _ => false end.

(** the resolved storage policy of one file part *)
Record policy := { p_tmpDir : string; p_folder : string; p_handle : bool; p_filename : string }.

Definition truthy_str (s : string) : bool := negb (String.eqb s "").

(** [if (slot) { if (typeof slot === 'function') x = await slot(fileData); else x = slot; }] *)
Definition run_hook {A} (truthy : A -> bool) (h : hook A) (fi : FileInfo) (cur : A) : option A :=
  match h with
  | HNone => Some cur
  | HStatic a => Some (if truthy a then a else cur)
  | HFun f => f fi
  end.

Inductive bb_event :=
| BField (name value : string)
| BFile (fi : FileInfo)
| BFinish | BLimit | BPartsLimit | BFieldsLimit | BFilesLimit | BError
| BStreamError.  (** [finishedCallback(stream, err)] with an error *)

Inductive body_err := ELimit | EStreamError | EPartsLimit | EFieldsLimit | EFilesLimit | EBusboy.

Inductive stream_event := EvChunk (b : bytes) | EvEnd | EvError.

(** why the body phase produced no body *)
Inductive failure :=
| FStob (e : string) | FBody (e : body_err) | FBusboyCtor | FJson | FTrim.

Inductive decoded :=
| DecBody (b : jv) | DecFail (f : failure) | DecNone | DecPending.

Inductive pd_result := PDone (p : ParsedData) | PRejected | PPending.

Record fh_out := { fo_ret : jv; fo_fs : fsys; fo_drained : bool; fo_threw : bool }.

Record fb_state := { fb_ret : jv; fb_fs : fsys; fb_outcome : settled unit body_err; fb_stalled : bool }.

Section WithRuntime.
(** Node's [path.join], [path.dirname] and [os.tmpdir()] *)
Variable path_join : list string -> string.
Variable path_dirname : string -> string.
Variable os_tmpdir : string.
(** [qs.parse(_, {parseArrays: false})], [JSON.parse] ([None] when it
    throws) and [Buffer.toString('utf8')] *)
Variable parse_query : string -> jv.
Variable json_parse : string -> option jv.
Variable utf8_decode : bytes -> string.
(** [new Busboy(opts)] fed with the bridged stream: the events it emits
    in order, merged with the [finishedCallback] error; [None] when
    the constructor throws *)
Variable busboy : jv -> list stream_event -> option (list bb_event).

Definition resolve_policy (cbo : option CustomBodyOptions) (fi : FileInfo) : option policy :=
  match cbo with
  | None => Some {| p_tmpDir := os_tmpdir; p_folder := ""; p_handle := true; p_filename := filename fi |}
  | Some c =>
      match run_hook truthy_str (cb_tmpDir c) fi os_tmpdir with
      | None => None
      | Some t =>
      match run_hook truthy_str (cb_folder c) fi "" with
      | None => None
      | Some fo =>
      match run_hook (fun b : bool => b) (cb_handle c) fi true with
      | None => None
      | Some h =>
      match run_hook truthy_str (cb_saveAs c) fi (filename fi) with
      | None => None
      | Some n => Some {| p_tmpDir := t; p_folder := fo; p_handle := h; p_filename := n |}
      end end end end
  end.

(** the namespace is prepended to the folder, then [join(tmpDir, folder, filename)] *)
Definition dest_path (ns : option string) (pol : policy) : string :=
  let folder :=
    match ns with
    | Some n => if truthy_str n
               then (if truthy_str (p_folder pol) then path_join [n; p_folder pol] else n)
               else p_folder pol
    | None => p_folder pol
    end in
  path_join [p_tmpDir pol; folder; p_filename pol].

(** [lstat(path)] then [stats.isFile() || stats.isDirectory()]: [lstat]
    does not follow a link, which is neither *)
Definition exists_path (fs : fsys) (p : string) : bool :=
  match fs_lookup fs p with Some (NFile _) | Some NDir => true | _ => false end.

(** [mkdirp(d)]: Node's recursive [mkdir], which tries [d], creates the
    missing parent first when [d]'s parent is missing, and accepts an
    existing [d] only when it is a directory.  [None] when it throws. *)
Fixpoint mkdirp (fuel : nat) (fs : fsys) (d : string) : option fsys :=
  match fs_lookup fs d with
  | Some _ => if is_dir fs d then Some fs else None
  | None =>
      let pd := path_dirname d in
      if is_dir fs pd then Some (fs_put fs d NDir)
      else match fuel with
           | 0 => None
           | S f => match mkdirp f fs pd with
                    | Some fs' => Some (fs_put fs' d NDir)
                    | None => None
                    end
           end
  end.

(** [open(p, 'w')]: follows the links, truncates a file, creates a
    missing one in an existing directory, throws on a directory *)
Definition open_w (fs : fsys) (p : string) : option fsys :=
  match follow 40 fs p with
  | Some (q, Some (NFile _)) => Some (fs_put fs q (NFile []))
  | Some (q, None) =>
      if is_dir fs (path_dirname q) then Some (fs_put fs q (NFile [])) else None
  | _ => None
  end.

Definition file_entry (p mt : string) : jv :=
  JObj false [("file", JStr p); ("mimetype", JStr mt)].

(** the async [file] listener.  [write] is not an export of
    [fs/promises]: the imported binding is [undefined], so the first
    chunk of a part makes [await write(fd, ...)] throw a [TypeError],
    which the [catch] swallows.  Leaving the [for await] loop by an
    exception destroys the part, and [file.resume()] on a destroyed
    stream drains nothing: the part stays undrained. *)
Definition on_file (ns : option string) (cbo : option CustomBodyOptions)
    (ret : jv) (fs : fsys) (fi : FileInfo) : fh_out :=
  match resolve_policy cbo fi with
  | None =>
      (** the exception rejects the listener's promise, which nobody
          awaits: [file.resume()] is never reached *)
      {| fo_ret := ret; fo_fs := fs; fo_drained := false; fo_threw := true |}
  | Some pol =>
      let skip fs' := {| fo_ret := ret; fo_fs := fs'; fo_drained := true; fo_threw := false |} in
      if negb (p_handle pol) then skip fs else
      let p := dest_path ns pol in
      if exists_path fs p then skip fs else
      let d := path_dirname p in
      match mkdirp (S (String.length d)) fs d with
      | None => skip fs
      | Some fs1 =>
          match open_w fs1 p with
          | None => skip fs1
          | Some fs2 =>
              match file fi with
              | [] =>
                  (** the loop body never runs: [close], [hasWritten = true]
                      and [set]; a [set] that throws is swallowed too *)
                  match set ret ("files." ++ fieldname fi) (file_entry p (mimetype fi)) with
                  | Some ret' => {| fo_ret := ret'; fo_fs := fs2; fo_drained := true; fo_threw := false |}
                  | None => skip fs2
                  end
              | _ :: _ =>
                  {| fo_ret := ret; fo_fs := fs2; fo_drained := false; fo_threw := false |}
              end
          end
      end
  end.

(** [busb.on('field', ...)]; [None]: [set] threw *)
Definition on_field (ret : jv) (name value : string) : option jv :=
  set ret ("fields." ++ name) (JStr value).

(** one event delivered to the listeners of [fetchBody]; the tokenizer
    emits nothing more after a file part that is left undrained, nor
    after an exception of the [field] listener, which escapes from the
    tokenizer's [write] *)
Definition fb_step (ns : option string) (cbo : option CustomBodyOptions)
    (st : fb_state) (ev : bb_event) : fb_state :=
  if fb_stalled st then st else
  let rej e := {| fb_ret := fb_ret st; fb_fs := fb_fs st;
                  fb_outcome := settle (fb_outcome st) (Rejected e); fb_stalled := false |} in
  match ev with
  | BField n v =>
      match on_field (fb_ret st) n v with
      | Some r => {| fb_ret := r; fb_fs := fb_fs st; fb_outcome := fb_outcome st; fb_stalled := false |}
      | None => {| fb_ret := fb_ret st; fb_fs := fb_fs st; fb_outcome := fb_outcome st; fb_stalled := true |}
      end
  | BFile fi => let o := on_file ns cbo (fb_ret st) (fb_fs st) fi in
                {| fb_ret := fo_ret o; fb_fs := fo_fs o;
                   fb_outcome := fb_outcome st; fb_stalled := negb (fo_drained o) |}
  | BFinish => {| fb_ret := fb_ret st; fb_fs := fb_fs st;
                  fb_outcome := settle (fb_outcome st) (Resolved tt); fb_stalled := false |}
  | BLimit => rej ELimit
  | BPartsLimit => rej EPartsLimit
  | BFieldsLimit => rej EFieldsLimit
  | BFilesLimit => rej EFilesLimit
  | BError => rej EBusboy
  | BStreamError => rej EStreamError
  end.

(** [fetchBody]: the promise outcome, with [ret] as it was when
    [finish] resolved it *)
Fixpoint fetch_body_go (ns : option string) (cbo : option CustomBodyOptions)
    (st : fb_state) (evs : list bb_event) : settled jv body_err * fsys :=
  match evs with
  | [] => (match fb_outcome st with
           | Resolved _ => (Resolved (fb_ret st), fb_fs st)
           | Rejected e => (Rejected e, fb_fs st)
           | Pending => (Pending, fb_fs st)
           end)
  | ev :: evs' =>
      match fb_outcome st with
      | Resolved _ => (Resolved (fb_ret st), fb_fs st)
      | _ => fetch_body_go ns cbo (fb_step ns cbo st ev) evs'
      end
  end.

Definition fetch_body (ns : option string) (cbo : option CustomBodyOptions)
    (fs : fsys) (evs : list bb_event) : settled jv body_err * fsys :=
  fetch_body_go ns cbo {| fb_ret := JObj false []; fb_fs := fs; fb_outcome := Pending; fb_stalled := false |} evs.

Definition urlencoded : string := "application/x-www-form-urlencoded".

(** the [Buffer]s the bridge pushed, in order, and the [Readable]
    events referring to them *)
Definition chunks_of (evs : list stream_event) : list bytes :=
  flat_map (fun e => match e with EvChunk b => [b] | _ => [] end) evs.

Fixpoint stob_events (n : nat) (evs : list stream_event) : list Stob.event :=
  match evs with
  | [] => []
  | EvChunk _ :: evs' => Stob.SData n :: stob_events (S n) evs'
  | EvEnd :: evs' => Stob.SEnd :: stob_events n evs'
  | EvError :: evs' => Stob.SError :: stob_events n evs'
  end.

(** [await stob(stream, maxSize)] *)
Definition stob_stream (maxSize : nat) (evs : list stream_event) : settled bytes string :=
  let st := Stob.run maxSize (chunks_of evs) (stob_events 0 evs) in
  match Stob.outcome st with
  | Resolved r => Resolved (Stob.deref (Stob.mem st) r)
  | Rejected e => Rejected e
  | Pending => Pending
  end.

(** [parseFloat(get(opts, 'limits.fieldSize', 0)) || 0] after the merge
    with the default limits *)
Definition max_size (o : ParseDataOptions) : nat :=
  match field_size o with Some n => n | None => 10 * 1024 * 1024 end.

(** the [headers] handed to [Busboy]: [{'content-type': default, ...out.headers}] *)
Definition busboy_headers (h : jv) : jv :=
  let base := [("content-type", JStr urlencoded)] in
  match h with
  | JObj _ ps => JObj false (fold_left (fun acc kv => put (fst kv) (snd kv) acc) ps base)
  | _ => JObj false base
  end.

(** the [try] block of the body phase *)
Definition decode_body (o : ParseDataOptions) (headers : jv)
    (evs : list stream_event) (fs : fsys) : decoded * fsys :=
  let out := JObj false [("headers", headers)] in
  match get_default out "headers.content-type" (JStr urlencoded) with
  | JStr s =>
      let contentType := Str.trim s in
      if String.eqb urlencoded contentType
         || Str.starts_with "multipart/form-data;" contentType then
        match busboy (busboy_headers headers) evs with
        | None => (DecFail FBusboyCtor, fs)
        | Some bevs =>
            match fetch_body (namespace o) (customBodyOptions o) fs bevs with
            | (Resolved r, fs') => (DecBody r, fs')
            | (Rejected e, fs') => (DecFail (FBody e), fs')
            | (Pending, fs') => (DecPending, fs')
            end
        end
      else if String.eqb contentType "application/json" then
        match stob_stream (max_size o) evs with
        | Resolved data =>
            match json_parse (utf8_decode data) with
            | Some v => (DecBody (JObj false [("fields", v)]), fs)
            | None => (DecFail FJson, fs)
            end
        | Rejected e => (DecFail (FStob e), fs)
        | Pending => (DecPending, fs)
        end
      else (DecNone, fs)
  (** [.trim()] of a value that is not a string throws a [TypeError] *)
  | _ => (DecFail FTrim, fs)
  end.

Definition is_true (b : option bool) : bool :=
  match b with Some true => true | _ => false end.

(** the metadata part of the result; [None]: the header loop threw *)
Definition meta_of (o : ParseDataOptions) (req : Request) : option ParsedData :=
  let hs :=
    if is_true (opt_headers o) || is_true (opt_body o)
    then match Headers.extract_headers (req_headers req) with
         | Some h => Some (Some h)
         | None => None
         end
    else Some None in
  match hs with
  | None => None
  | Some h =>
      Some {| out_headers := h;
              out_query := if is_true (opt_query o) then Some (parse_query (req_query req)) else None;
              out_method := if is_true (opt_method o) then Some (req_method req) else None;
              out_path := if is_true (opt_path o) then Some (req_url req) else None;
              out_body := None |}
  end.

Definition with_body (p : ParsedData) (b : jv) : ParsedData :=
  {| out_headers := out_headers p; out_query := out_query p;
     out_method := out_method p; out_path := out_path p; out_body := Some b |}.

(** [parseData].  The [if (isAborted) return out] test is not modelled:
    it runs synchronously right after [res.onAborted] has registered the
    callback that sets [isAborted], which uWS can only call on a later
    turn of the event loop, so the test reads [false].  An exception of
    the header loop is outside the [try] and rejects the promise. *)
Definition parseData (o : ParseDataOptions) (req : Request)
    (evs : list stream_event) (fs : fsys) : pd_result * fsys :=
  match meta_of o req with
  | None => (PRejected, fs)
  | Some meta =>
      if is_true (opt_body o) then
        let h := match out_headers meta with Some h => h | None => JObj false [] end in
        match decode_body o h evs fs with
        | (DecBody b, fs') => (PDone (with_body meta b), fs')
        | (DecFail _, fs') | (DecNone, fs') => (PDone meta, fs')
        | (DecPending, fs') => (PPending, fs')
        end
      else (PDone meta, fs)
  end.
End WithRuntime.
End Parse.

(** ** A concrete runtime for the examples: POSIX-style paths under [/tmp] *)
Module Demo.
Import Parse.

Definition join (ps : list string) : string :=
  String.concat "/" (filter truthy_str ps).

Fixpoint dirname_go (s : string) : string * bool :=
  match s with
  | EmptyString => (EmptyString, false)
  | String c r =>
      let (d, seen) := dirname_go r in
      if seen then (String c d, true)
      else if Ascii.eqb c "/" then (EmptyString, true) else (EmptyString, false)
  end.

Definition dirname (s : string) : string :=
  match dirname_go s with
  | (EmptyString, true) => "/"
  | (d, true) => d
  | (_, false) => "."
  end.

Definition tmp : string := "/tmp".
Definition query (_ : string) : jv := JObj false [].
Definition utf8 (b : bytes) : string :=
  fold_right (fun x acc => String (ascii_of_byte x) acc) EmptyString b.
(** [JSON.parse] on the texts used below *)
Definition json (s : string) : option jv :=
  if String.eqb s "{}" then Some (JObj false []) else None.

Definition body_opts (ct_json_limit : option nat) (cbo : option CustomBodyOptions) : ParseDataOptions :=
  {| namespace := None; opt_headers := None; opt_body := Some true; opt_query := None;
     opt_path := None; opt_method := None; field_size := ct_json_limit;
     customBodyOptions := cbo |}.

Definition req (hs : list (string * string)) : Request :=
  {| req_headers := hs; req_query := ""; req_method := "post"; req_url := "/" |}.

Definition part (field : string) : FileInfo :=
  {| fieldname := field; filename := "a.txt"; encoding := "7bit";
     mimetype := "text/plain"; file := [[Byte.x68; Byte.x69]] |}.




Definition run (o : ParseDataOptions) (hs : list (string * string))
    (bb : list bb_event) (evs : list stream_event) (fs : fsys) : pd_result * fsys :=
  parseData join dirname tmp query json utf8 (fun _ _ => Some bb) o (req hs) evs fs.
End Demo.

(** ** Values the statements below are phrased with *)


(** the properties [i, i+1, ...] of a JS array holding [vs] *)
Fixpoint index_props (i : N) (vs : list jv) : list (string * jv) :=
  match vs with
  | [] => []
  | v :: vs' => (Lodash.N_to_string i, v) :: index_props (i + 1)%N vs'
  end.

(** the JS array literal [[v0, v1, ...]] *)
Definition js_array (vs : list jv) : jv := JObj true (index_props 0 vs).

(** the distinct lowercased header names of [l], in order of first
    appearance *)
Definition header_keys (l : list (string * string)) : list string :=
  fold_left (fun ks kv => let k := Str.to_lower (fst kv) in
                          if existsb (String.eqb k) ks then ks else (ks ++ [k])%list) l [].

(** the values sent under the lowercased name [k], in arrival order *)
Definition header_values (k : string) (l : list (string * string)) : list string :=
  map snd (filter (fun kv => String.eqb (Str.to_lower (fst kv)) k) l).

(** the value the header loop leaves for a name sent with the values
    [vs]: the value itself when it was sent once, else the array of the
    first value and the third to the last *)
Definition extracted_value (vs : list string) : jv :=
  match vs with
  | [] => JUndef
  | [v] => JStr v
  | v1 :: _ :: rest => js_array (JStr v1 :: map JStr rest)
  end.





(** * Properties *)

Import Lodash Headers Parse.

(** ** Concrete runs *)

(** C1 (the header loop at a repeated name): two [x] headers give the
    one-element list of the first value; the second value is lost because
    the promotion [val = [val]] does not add [value]. *)
Theorem C1_repeated_header_keeps_first_only :
  extract_headers [("x", "1"); ("x", "2")]
  = Some (JObj false [("x", JObj true [("0", JStr "1")])]).
Proof. vm_compute. reflexivity. Qed.



(** C5: the content type is trimmed before the comparison, so a header
    value [application/json] with a trailing space is decoded as JSON. *)
Lemma C5_trimmed_json_is_decoded :
  Demo.run (Demo.body_opts None None) [("content-type", "application/json ")] []
    [EvChunk [Byte.x7b; Byte.x7d]; EvEnd] []
  = (PDone {| out_headers := Some (JObj false [("content-type", JStr "application/json ")]);
              out_query := None; out_path := None; out_method := None;
              out_body := Some (JObj false [("fields", JObj false [])]) |}, []).
Proof. vm_compute. reflexivity. Qed.

(** C6: with one chunk, [stob] resolves with the copy made by
    [Buffer.from] on arrival (reference 1), not the chunk the stream
    delivered (reference 0). *)
Lemma C6_single_chunk_is_a_copy :
  Stob.outcome (Stob.run 5 [[Byte.x00]] [Stob.SData 0; Stob.SEnd]) = Resolved 1
  /\ Stob.outcome (Stob.run 5 [[Byte.x00]] [Stob.SData 0; Stob.SEnd]) <> Resolved 0.
Proof. vm_compute. split; [reflexivity | discriminate]. Qed.

(** C7 (hook failure): a [tmpDir] hook that throws rejects the async
    [file] listener, the part is never drained, the tokenizer never emits
    [finish], and [parseData] never settles. *)
Theorem C7_throwing_hook_never_settles :
  Demo.run (Demo.body_opts None
              (Some {| cb_handle := HNone; cb_tmpDir := HFun (fun _ => None);
                       cb_folder := HNone; cb_saveAs := HNone |}))
    [("content-type", "multipart/form-data; boundary=x")]
    [BFile (Demo.part "f"); BFinish] [] []
  = (PPending, []).
Proof. vm_compute. reflexivity. Qed.

(** C9 (stream error): [stob] registers no [error] listener, so an
    [error] event leaves its state as it was; after a chunk and an
    [error] the promise is still pending, and a JSON-path [parseData]
    never settles.  On the form path the same stream error reaches
    [finishedCallback], which rejects, and [parseData] resolves without
    a body. *)
Theorem C9_stream_error_never_settles m h es :
  Stob.run m h (es ++ [Stob.SError]) = Stob.run m h es
  /\ Stob.outcome (Stob.run 10 [[Byte.x7b]] [Stob.SData 0; Stob.SError]) = Pending
  /\ Demo.run (Demo.body_opts None None) [("content-type", "application/json")] []
       [EvChunk [Byte.x7b]; EvError] [] = (PPending, [])
  /\ Demo.run (Demo.body_opts None None) [("content-type", "multipart/form-data; boundary=x")]
       [BStreamError] [EvChunk [Byte.x7b]; EvError] []
     = (PDone {| out_headers := Some (JObj false [("content-type", JStr "multipart/form-data; boundary=x")]);
                 out_query := None; out_path := None; out_method := None; out_body := None |}, []).
Proof.
  split; [unfold Stob.run; rewrite fold_left_app; reflexivity|].
  vm_compute. split; [|split]; reflexivity.
Qed.

(** C10: a header name with an unpaired bracket is stored as a literal key. *)
Lemma C10_unpaired_bracket_header_is_literal :
  extract_headers [("x[", "1")] = Some (JObj false [("x[", JStr "1")]).
Proof. vm_compute. reflexivity. Qed.

(** ** The lodash path parser *)

Lemma word_not_special c : Str.is_word c = true -> Str.is_special c = false.
Proof.
  intro Hw. unfold Str.is_special, Str.is_dot, Str.is_lbr, Str.is_rbr.
  destruct (Ascii.eqb c ".") eqn:E1; [apply Ascii.eqb_eq in E1; subst; discriminate|].
  destruct (Ascii.eqb c "[") eqn:E2; [apply Ascii.eqb_eq in E2; subst; discriminate|].
  destruct (Ascii.eqb c "]") eqn:E3; [apply Ascii.eqb_eq in E3; subst; discriminate|].
  reflexivity.
Qed.

Lemma take_plain_spec s a b :
  take_plain s = (a, b) -> s = (a ++ b)%string /\ Str.has Str.is_special a = false.
Proof.
  revert a b; induction s as [|c r IH]; intros a b H; simpl in H.
  - inversion H; subst; split; reflexivity.
  - destruct (Str.is_special c) eqn:Ec.
    + inversion H; subst; split; reflexivity.
    + destruct (take_plain r) as [a' b'] eqn:Er. injection H as <- <-.
      destruct (IH a' b' eq_refl) as [-> Hn]. simpl. rewrite Ec, Hn. split; reflexivity.
Qed.


Lemma take_plain_special_head w s :
  Str.all (fun c => negb (Str.is_special c)) w = true ->
  (match s with String c _ => Str.is_special c | EmptyString => true end) = true ->
  take_plain (w ++ s) = (w, s).
Proof.
  induction w as [|c w IH]; intros Hw Hs; simpl in *.
  - destruct s as [|c s]; [reflexivity|]. simpl. rewrite Hs. reflexivity.
  - apply andb_prop in Hw as [Hc Hw]. apply negb_true_iff in Hc. rewrite Hc, (IH Hw Hs). reflexivity.
Qed.



Lemma length_append (s t : string) : String.length (s ++ t) = String.length s + String.length t.
Proof. induction s; simpl; auto. Qed.

Lemma bracket_body_length t body rest :
  bracket_body t = Some (body, rest) -> String.length body + String.length rest < String.length t.
Proof.
  revert body rest; induction t as [|c r IH]; intros body rest H; simpl in H; [discriminate|].
  destruct (Str.is_lbr c); [discriminate|].
  destruct (bracket_body r) as [[b' r']|] eqn:E.
  - inversion H; subst. specialize (IH _ _ eq_refl). simpl. lia.
  - destruct (Str.is_rbr c); inversion H; subst. simpl. lia.
Qed.

Lemma quoted_body_length q t sub rest :
  quoted_body q t = Some (sub, rest) -> String.length sub + String.length rest < String.length t.
Proof.
  remember (String.length t) as n eqn:En. revert t sub rest En.
  induction n as [n IH] using lt_wf_ind. intros t sub rest En H.
  destruct t as [|c r]; [discriminate|]. simpl in H.
  destruct r as [|d r']; [discriminate|].
  destruct (Ascii.eqb c q && Str.is_rbr d).
  { inversion H; subst. simpl. lia. }
  destruct (Str.is_bslash c).
  - destruct (Str.is_line_term d); [discriminate|].
    destruct (quoted_body q r') as [[b' x]|] eqn:E; [|discriminate].
    injection H as <- <-. simpl. rewrite En. simpl.
    assert (Hl := IH (String.length r') ltac:(rewrite En; simpl; lia) r' b' x eq_refl E). lia.
  - destruct (Ascii.eqb c q); [discriminate|].
    destruct (quoted_body q (String d r')) as [[b' x]|] eqn:E; [|discriminate].
    injection H as <- <-. simpl. rewrite En. simpl.
    assert (Hl := IH (String.length (String d r')) ltac:(rewrite En; simpl; lia) _ b' x eq_refl E).
    simpl in Hl. lia.
Qed.

Lemma unescape_length_aux s :
  String.length (unescape s) <= String.length s
  /\ forall c, String.length (unescape (String c s)) <= S (String.length s).
Proof.
  induction s as [|d r [IH1 IH2]].
  - split; [simpl; lia|]. intro c. simpl. destruct (Str.is_bslash c); simpl; lia.
  - split; [apply IH2|]. intro c.
    change (unescape (String c (String d r))) with
      (if Str.is_bslash c then
         (if Str.is_bslash d then String d (unescape r) else unescape (String d r))
       else String c (unescape (String d r))).
    specialize (IH2 d).
    destruct (Str.is_bslash c); [destruct (Str.is_bslash d)|]; simpl in *; lia.
Qed.

Lemma unescape_length s : String.length (unescape s) <= String.length s.
Proof. apply unescape_length_aux. Qed.

Lemma bracket_match_length s seg rest :
  bracket_match s = Some (seg, rest) ->
  String.length seg < String.length s /\ String.length rest < String.length s.
Proof.
  unfold bracket_match. destruct s as [|b [|c t]]; try discriminate.
  destruct (Str.is_lbr b); [|discriminate].
  destruct (Str.is_quote c).
  - destruct (quoted_body c t) as [[sub r]|] eqn:E; [|discriminate].
    intro H; inversion H; subst.
    apply quoted_body_length in E. pose proof (unescape_length sub). simpl. lia.
  - destruct (bracket_body t) as [[body r]|] eqn:E; [|discriminate].
    intro H; inversion H; subst.
    apply bracket_body_length in E. simpl. lia.
Qed.

(** every segment [stringToPath] cuts out of [s] is free of dots and
    brackets, or shorter than [s] *)
Lemma stp_go_segments n s seg :
  In seg (stp_go n s) ->
  Str.has Str.is_special seg = false \/ String.length seg < String.length s.
Proof.
  revert s; induction n as [|n IH]; intros s Hin; [destruct Hin|].
  destruct s as [|c r]; [destruct Hin|].
  cbn [stp_go] in Hin.
  destruct (take_plain (String c r)) as [run rest] eqn:Et.
  destruct (take_plain_spec _ _ _ Et) as [Es Hrun].
  destruct run as [|x y].
  - destruct (bracket_match (String c r)) as [[seg' rest']|] eqn:Eb.
    + destruct (bracket_match_length _ _ _ Eb) as [H1 H2].
      destruct Hin as [<-|Hin]; [right; exact H1|].
      destruct (IH _ Hin) as [H|H]; [left; exact H|right; lia].
    + destruct (empty_prop_ahead (String c r)).
      * destruct Hin as [<-|Hin]; [left; reflexivity|].
        destruct (IH _ Hin) as [H|H]; [left; exact H|right; simpl; lia].
      * destruct (IH _ Hin) as [H|H]; [left; exact H|right; simpl; lia].
  - destruct Hin as [<-|Hin]; [left; exact Hrun|].
    destruct (IH _ Hin) as [H|H]; [left; exact H|right].
    rewrite Es, length_append. simpl. lia.
Qed.

Lemma has_special_length_pos s : Str.has Str.is_special s = true -> 0 < String.length s.
Proof. destruct s; simpl; [discriminate|lia]. Qed.

Lemma not_in_stp_go n s :
  Str.has Str.is_special s = true -> ~ In s (stp_go n s).
Proof.
  intros Hs Hin. destruct (stp_go_segments _ _ _ Hin) as [H|H]; [congruence|lia].
Qed.

Lemma dot_is_deep s : Str.has Str.is_dot s = true -> is_deep_prop s = true.
Proof.
  induction s as [|c r IH]; simpl; [discriminate|].
  intro H. apply orb_true_iff in H as [H|H].
  - rewrite H. reflexivity.
  - rewrite (IH H), orb_true_r. reflexivity.
Qed.

Lemma deep_has_special s : is_deep_prop s = true -> Str.has Str.is_special s = true.
Proof.
  induction s as [|c r IH]; simpl; [discriminate|].
  intro H. apply orb_true_iff in H as [H|H]; [apply orb_true_iff in H as [H|H]|].
  - assert (Hs : Str.is_special c = true) by (unfold Str.is_special; rewrite H; reflexivity).
    rewrite Hs. reflexivity.
  - apply andb_prop in H as [H _].
    assert (Hs : Str.is_special c = true)
      by (unfold Str.is_special; rewrite H, orb_true_r; reflexivity).
    rewrite Hs. reflexivity.
  - rewrite (IH H), orb_true_r. reflexivity.
Qed.

Lemma deep_not_plain s : is_deep_prop s = true -> is_plain_prop s = false.
Proof.
  intro H. apply deep_has_special in H. unfold is_plain_prop.
  induction s as [|c r IH]; simpl in *; [discriminate|].
  apply orb_true_iff in H as [H|H].
  - destruct (Str.is_word c) eqn:Ew; [|reflexivity].
    rewrite (word_not_special c Ew) in H. discriminate.
  - rewrite (IH H). apply andb_false_r.
Qed.

Lemma stp_go_dot k fn :
  stp_go (S k) (String "." fn)
  = if empty_prop_ahead (String "." fn) then "" :: stp_go k fn else stp_go k fn.
Proof. destruct fn; reflexivity. Qed.

(** the path of [w.<name>] starts with the segment [w] *)
Lemma string_to_path_prefixed c w fn :
  Str.is_dot c = false ->
  Str.all (fun x => negb (Str.is_special x)) (String c w) = true ->
  string_to_path (String c w ++ String "." fn)
  = String c w :: stp_go (String.length (String c w ++ String "." fn)) (String "." fn).
Proof.
  intros Hc Hw. unfold string_to_path.
  change (String c w ++ String "." fn)%string with (String c (w ++ String "." fn)).
  lazy beta iota. rewrite Hc. cbn [String.length stp_go].
  change (String c (w ++ String "." fn)) with (String c w ++ String "." fn)%string.
  rewrite take_plain_special_head by (exact Hw || reflexivity).
  reflexivity.
Qed.

Lemma prefixed_segments_not_name c w fn :
  Str.is_dot c = false ->
  Str.all (fun x => negb (Str.is_special x)) (String c w) = true ->
  Str.has Str.is_special fn = true ->
  exists ks, string_to_path (String c w ++ String "." fn) = String c w :: ks /\ ~ In fn ks.
Proof.
  intros Hc Hw Hfn. rewrite string_to_path_prefixed by assumption.
  eexists; split; [reflexivity|].
  rewrite length_append. cbn [String.length]. rewrite Nat.add_succ_r.
  rewrite stp_go_dot. intro Hin.
  destruct (empty_prop_ahead (String "." fn)).
  - destruct Hin as [Heq|Hin].
    + subst fn. discriminate.
    + exact (not_in_stp_go _ _ Hfn Hin).
  - exact (not_in_stp_go _ _ Hfn Hin).
Qed.



Lemma assoc_put_other k k' v ps : k <> k' -> assoc k (put k' v ps) = assoc k ps.
Proof.
  intro Hne. induction ps as [|[k'' v'] ps IH]; cbn [put assoc].
  - apply String.eqb_neq in Hne. rewrite Hne. reflexivity.
  - destruct (String.eqb k' k'') eqn:E; cbn [assoc].
    + apply String.eqb_eq in E. subst.
      apply String.eqb_neq in Hne. rewrite Hne. reflexivity.
    + destruct (String.eqb k k''); [reflexivity|exact IH].
Qed.




(** ** The file handler *)







(** C10 (amended): names of multipart fields and files always go through
    lodash's path parser, and a name with a dot or a bracket never ends up
    as a single key: the segments after [fields] or [files] never include
    it.  A header name is parsed as a path exactly when [reIsDeepProp]
    holds for it (a dot, or a bracket pair with no bracket in between);
    otherwise, for instance with an unpaired bracket, it is a literal key. *)
Theorem C10_names_are_paths :
  (forall a ps fn v,
     Str.has Str.is_special fn = true -> assoc ("fields." ++ fn) ps = None ->
     exists ks, on_field (JObj a ps) fn v = base_set (JObj a ps) ("fields" :: ks) (JStr v)
                /\ ~ In fn ks)
  /\ (forall a ps fn,
     Str.has Str.is_special fn = true -> assoc ("files." ++ fn) ps = None ->
     exists ks, cast_path ("files." ++ fn) (JObj a ps) = "files" :: ks /\ ~ In fn ks)
  /\ (forall h key, is_deep_prop key = false -> cast_path key h = [key])
  /\ (forall a ps key, is_deep_prop key = true -> assoc key ps = None ->
     cast_path key (JObj a ps) = string_to_path key /\ ~ In key (string_to_path key)).
Proof.
  split; [|split; [|split]].
  - intros a ps fn v Hs Hk. unfold on_field, set. cbn [is_object]. unfold cast_path, is_key.
    assert (Hd : is_deep_prop ("fields." ++ fn) = true) by (apply dot_is_deep; reflexivity).
    rewrite (deep_not_plain _ Hd), Hd, Hk. simpl orb.
    destruct (prefixed_segments_not_name "f" "ields" fn eq_refl eq_refl Hs) as [ks [Hks Hn]].
    exists ks. split; [|exact Hn].
    change ("fields." ++ fn)%string with ("fields" ++ String "." fn)%string.
    rewrite Hks. reflexivity.
  - intros a ps fn Hs Hk. unfold cast_path, is_key.
    assert (Hd : is_deep_prop ("files." ++ fn) = true) by (apply dot_is_deep; reflexivity).
    rewrite (deep_not_plain _ Hd), Hd, Hk. simpl orb.
    exact (prefixed_segments_not_name "f" "iles" fn eq_refl eq_refl Hs).
  - intros h key Hd. unfold cast_path, is_key. rewrite Hd, orb_true_r. reflexivity.
  - intros a ps key Hd Hk. unfold cast_path, is_key.
    rewrite (deep_not_plain _ Hd), Hd, Hk. simpl orb. split; [reflexivity|].
    pose proof (deep_has_special _ Hd) as Hs.
    unfold string_to_path. destruct key as [|c r]; [discriminate|].
    destruct (Str.is_dot c); intro Hin.
    + destruct Hin as [E|Hin]; [discriminate|exact (not_in_stp_go _ _ Hs Hin)].
    + exact (not_in_stp_go _ _ Hs Hin).
Qed.

Lemma C10_witness :
  (exists ks, on_field (JObj false []) "a.b" "1" = base_set (JObj false []) ("fields" :: ks) (JStr "1")
              /\ ~ In "a.b" ks)
  /\ cast_path "x[" (JObj false []) = ["x["]
  /\ cast_path "a[b]" (JObj false []) = string_to_path "a[b]".
Proof.
  destruct C10_names_are_paths as [Hf [_ [Hl Hd]]].
  split; [apply Hf; reflexivity|].
  split; [apply Hl; reflexivity|].
  apply (Hd false [] "a[b]"); reflexivity.
Defined.

(** ** The buffered materializer *)

Local Open Scope list_scope.

Lemma stob_dead_data m st rs :
  Stob.buffers st = None -> fold_left (Stob.step m) (map Stob.SData rs) st = st.
Proof.
  intro H. induction rs as [|r rs IH]; [reflexivity|].
  cbn [map fold_left Stob.step]. unfold Stob.on_data. rewrite H. exact IH.
Qed.

Lemma deref_app h ys r : r < List.length h -> Stob.deref (h ++ ys) r = Stob.deref h r.
Proof. intro H. unfold Stob.deref. apply app_nth1. exact H. Qed.

Lemma deref_last l x : Stob.deref (l ++ [x]) (List.length l) = x.
Proof. unfold Stob.deref. apply nth_middle. Qed.

Lemma deref_seq h ys :
  map (Stob.deref (h ++ ys)) (seq (List.length h) (List.length ys)) = ys.
Proof.
  revert h. induction ys as [|y ys IH]; intro h; [reflexivity|].
  cbn [List.length seq map]. f_equal.
  - unfold Stob.deref. apply nth_middle.
  - replace (h ++ y :: ys) with ((h ++ [y]) ++ ys) by (rewrite <- app_assoc; reflexivity).
    replace (S (List.length h)) with (List.length (h ++ [y])) by (rewrite length_app; simpl; lia).
    apply IH.
Qed.

(** while the running total stays within [maxSize], every [data] event
    appends a fresh copy; the first chunk that takes it over rejects *)
Lemma stob_live m h rs :
  0 < m -> Forall (fun r => r < List.length h) rs ->
  forall bs n ys, n <= m ->
  (m < n + list_sum (map (fun r => List.length (Stob.deref h r)) rs) ->
   let st := fold_left (Stob.step m) (map Stob.SData rs) (Stob.mk false (Some bs) n Pending false (h ++ ys)) in
   Stob.buffers st = None /\ Stob.outcome st = Rejected "MAX_SIZE_EXCEEDED" /\ Stob.destroyed st = true)
  /\ (n + list_sum (map (fun r => List.length (Stob.deref h r)) rs) <= m ->
   fold_left (Stob.step m) (map Stob.SData rs) (Stob.mk false (Some bs) n Pending false (h ++ ys))
   = Stob.mk false (Some (bs ++ seq (List.length (h ++ ys)) (List.length rs)))
       (n + list_sum (map (fun r => List.length (Stob.deref h r)) rs)) Pending false
       ((h ++ ys) ++ map (Stob.deref h) rs)).
Proof.
  intros Hm Hf. induction Hf as [|r rs Hr Hf IH]; intros bs n ys Hn.
  - cbn [map fold_left list_sum fold_right List.length seq]. split; [intro; lia|].
    intros _. rewrite !app_nil_r, Nat.add_0_r. reflexivity.
  - unfold list_sum in *.
    cbn [map fold_left fold_right List.length seq Stob.step].
    unfold Stob.on_data.
    cbn [Stob.buffers Stob.has_ended Stob.mem Stob.alloc Stob.length Stob.outcome Stob.destroyed].
    rewrite (proj2 (Nat.eqb_neq m 0) ltac:(lia)), deref_last, (deref_app _ _ _ Hr).
    destruct (Nat.ltb m (n + List.length (Stob.deref h r))) eqn:E.
    + apply Nat.ltb_lt in E. rewrite stob_dead_data by reflexivity.
      split; [intros _; cbn; auto | intro; lia].
    + apply Nat.ltb_ge in E.
      destruct (IH (bs ++ [List.length (h ++ ys)]) _ (ys ++ [Stob.deref h r]) E) as [I1 I2].
      rewrite app_assoc in I1, I2. split.
      * intro Hgt. apply I1. lia.
      * intro Hle. rewrite I2 by lia.
        replace (List.length ((h ++ ys) ++ [Stob.deref h r])) with (S (List.length (h ++ ys)))
          by (rewrite (length_app (h ++ ys) [Stob.deref h r]); cbn; lia).
        f_equal; [f_equal; rewrite <- app_assoc; reflexivity | lia | rewrite <- app_assoc; reflexivity].
Qed.

Lemma stob_on_end_live bs n mm :
  Stob.destroyed (Stob.on_end (Stob.mk false (Some bs) n Pending false mm)) = false
  /\ exists r, Stob.outcome (Stob.on_end (Stob.mk false (Some bs) n Pending false mm)) = Resolved r
     /\ Stob.deref (Stob.mem (Stob.on_end (Stob.mk false (Some bs) n Pending false mm))) r
        = concat (map (Stob.deref mm) bs).
Proof.
  split; [destruct bs as [|b0 [|b1 bs]]; reflexivity|].
  destruct bs as [|b0 [|b1 bs]]; cbn [Stob.on_end Stob.buffers Stob.alloc Stob.mem Stob.outcome settle];
    eexists; split; try reflexivity.
  - apply deref_last.
  - cbn. rewrite app_nil_r. reflexivity.
  - apply deref_last.
Qed.

(** C6 (amended): for [maxSize > 0] and a stream of [data] events then
    [end], [stob] rejects with [MAX_SIZE_EXCEEDED] and destroys the stream
    exactly when the total length is over [maxSize]; otherwise it resolves,
    without destroying the stream, with a buffer holding the chunks in
    order.  Every chunk is copied by [Buffer.from] on arrival, so a single
    chunk resolves with its copy, a new buffer, not the one delivered. *)
Theorem C6_stob_limit_and_result m h rs :
  0 < m -> Forall (fun r => r < List.length h) rs ->
  (m < list_sum (map (fun r => List.length (Stob.deref h r)) rs) ->
   Stob.outcome (Stob.run m h (map Stob.SData rs ++ [Stob.SEnd])) = Rejected "MAX_SIZE_EXCEEDED"
   /\ Stob.destroyed (Stob.run m h (map Stob.SData rs ++ [Stob.SEnd])) = true)
  /\ (list_sum (map (fun r => List.length (Stob.deref h r)) rs) <= m ->
   Stob.destroyed (Stob.run m h (map Stob.SData rs ++ [Stob.SEnd])) = false
   /\ exists r, Stob.outcome (Stob.run m h (map Stob.SData rs ++ [Stob.SEnd])) = Resolved r
      /\ Stob.deref (Stob.mem (Stob.run m h (map Stob.SData rs ++ [Stob.SEnd]))) r
         = concat (map (Stob.deref h) rs))
  /\ (forall r0, rs = [r0] -> List.length (Stob.deref h r0) <= m ->
   Stob.outcome (Stob.run m h [Stob.SData r0; Stob.SEnd]) = Resolved (List.length h)
   /\ r0 <> List.length h
   /\ Stob.mem (Stob.run m h [Stob.SData r0; Stob.SEnd]) = h ++ [Stob.deref h r0]).
Proof.
  intros Hm Hf.
  destruct (stob_live m h rs Hm Hf [] 0 [] (Nat.le_0_l m)) as [L1 L2].
  rewrite !app_nil_r, Nat.add_0_l in L1, L2. cbn [app] in L2.
  split; [|split].
  - intro Hgt. destruct (L1 Hgt) as (Hb & Ho & Hd).
    unfold Stob.run, Stob.init. rewrite fold_left_app. cbn [fold_left Stob.step].
    unfold Stob.on_end. rewrite Hb. cbn [Stob.outcome Stob.destroyed]. auto.
  - intro Hle. unfold Stob.run, Stob.init. rewrite fold_left_app. cbn [fold_left Stob.step].
    rewrite (L2 Hle).
    destruct (stob_on_end_live (seq (List.length h) (List.length rs))
                (list_sum (map (fun r => List.length (Stob.deref h r)) rs))
                (h ++ map (Stob.deref h) rs)) as [Hd [r [Ho Hr]]].
    split; [exact Hd|]. exists r. split; [exact Ho|]. rewrite Hr.
    rewrite <- (length_map (Stob.deref h) rs), deref_seq. reflexivity.
  - intros r0 -> Hle.
    change [Stob.SData r0; Stob.SEnd] with (map Stob.SData [r0] ++ [Stob.SEnd]).
    assert (Hs : list_sum (map (fun r => List.length (Stob.deref h r)) [r0]) <= m) by (cbn; lia).
    unfold Stob.run, Stob.init. rewrite fold_left_app. cbn [fold_left Stob.step].
    rewrite (L2 Hs). cbn. inversion Hf as [|? ? Hr0 _]. split; [reflexivity|]. split; [lia|reflexivity].
Qed.

Lemma C6_witness :
  (2 < list_sum (map (fun r => List.length (Stob.deref [[Byte.x00; Byte.x01; Byte.x02]] r)) [0]) ->
   Stob.outcome (Stob.run 2 [[Byte.x00; Byte.x01; Byte.x02]] (map Stob.SData [0] ++ [Stob.SEnd]))
   = Rejected "MAX_SIZE_EXCEEDED"
   /\ Stob.destroyed (Stob.run 2 [[Byte.x00; Byte.x01; Byte.x02]] (map Stob.SData [0] ++ [Stob.SEnd])) = true)
  /\ Stob.outcome (Stob.run 3 [[Byte.x00; Byte.x01; Byte.x02]] [Stob.SData 0; Stob.SEnd]) = Resolved 1
  /\ 0 <> 1.
Proof.
  split.
  - apply (C6_stob_limit_and_result 2 [[Byte.x00; Byte.x01; Byte.x02]] [0]);
      [lia | repeat constructor; simpl; lia].
  - destruct (C6_stob_limit_and_result 3 [[Byte.x00; Byte.x01; Byte.x02]] [0]
                ltac:(lia) ltac:(repeat constructor; simpl; lia)) as [_ [_ H]].
    destruct (H 0 eq_refl ltac:(simpl; lia)) as [Ho [Hn _]]. split; [exact Ho | exact Hn].
Defined.

Lemma stob_settled_inv m st e :
  (Stob.outcome st <> Pending -> Stob.has_ended st = true) ->
  Stob.outcome (Stob.step m st e) <> Pending -> Stob.has_ended (Stob.step m st e) = true.
Proof.
  intro H. destruct st as [he bf ln oc ds mm], e as [r| |]; cbn [Stob.step]; [|unfold Stob.on_end|exact H].
  - unfold Stob.on_data. cbn [Stob.buffers Stob.has_ended Stob.mem Stob.alloc Stob.length Stob.outcome].
    destruct bf as [bs|]; [|exact H]. destruct he; [exact H|].
    destruct (Nat.eqb m 0); [exact H|].
    destruct (Nat.ltb _ _); [intros _; reflexivity | exact H].
  - cbn [Stob.buffers Stob.mem Stob.alloc].
    destruct bf as [[|b0 [|b1 bs]]|]; intros _; reflexivity.
Qed.

Lemma stob_settled_step m st e :
  Stob.outcome st <> Pending -> Stob.has_ended st = true ->
  Stob.outcome (Stob.step m st e) = Stob.outcome st
  /\ Stob.buffers (Stob.step m st e) = Stob.buffers st
  /\ Stob.length (Stob.step m st e) = Stob.length st
  /\ Stob.has_ended (Stob.step m st e) = true.
Proof.
  intros Ho He. destruct st as [he bf ln oc ds mm]; cbn in Ho, He; subst he.
  assert (Hs : forall x, settle oc x = oc) by (destruct oc; [contradiction|reflexivity|reflexivity]).
  destruct e as [r| |]; cbn [Stob.step].
  - unfold Stob.on_data. cbn [Stob.buffers Stob.has_ended].
    destruct bf; repeat split; reflexivity.
  - unfold Stob.on_end. cbn [Stob.buffers Stob.mem Stob.alloc].
    destruct bf as [[|b0 [|b1 bs]]|]; cbn; rewrite ?Hs; repeat split; reflexivity.
  - repeat split; reflexivity.
Qed.

Lemma stob_settled_fold m es st :
  Stob.outcome st <> Pending -> Stob.has_ended st = true ->
  Stob.outcome (fold_left (Stob.step m) es st) = Stob.outcome st
  /\ Stob.buffers (fold_left (Stob.step m) es st) = Stob.buffers st
  /\ Stob.length (fold_left (Stob.step m) es st) = Stob.length st.
Proof.
  revert st. induction es as [|e es IH]; intros st Ho He; [auto|].
  cbn [fold_left].
  destruct (stob_settled_step m st e Ho He) as (E1 & E2 & E3 & E4).
  rewrite <- E1 in Ho. destruct (IH _ Ho E4) as (F1 & F2 & F3).
  rewrite F1, F2, F3, E1, E2, E3. auto.
Qed.

Lemma stob_run_inv m es st :
  (Stob.outcome st <> Pending -> Stob.has_ended st = true) ->
  Stob.outcome (fold_left (Stob.step m) es st) <> Pending ->
  Stob.has_ended (fold_left (Stob.step m) es st) = true.
Proof.
  revert st. induction es as [|e es IH]; intros st H; [exact H|].
  apply IH. apply stob_settled_inv. exact H.
Qed.

(** once [stob]'s promise is settled, by [resolve] or by the size
    rejection, later [data], [end] and [error] events change neither the
    outcome nor the buffer list nor the counted length *)
Lemma stob_settles_once m h es1 es2 :
  Stob.outcome (Stob.run m h es1) <> Pending ->
  Stob.outcome (Stob.run m h (es1 ++ es2)) = Stob.outcome (Stob.run m h es1)
  /\ Stob.buffers (Stob.run m h (es1 ++ es2)) = Stob.buffers (Stob.run m h es1)
  /\ Stob.length (Stob.run m h (es1 ++ es2)) = Stob.length (Stob.run m h es1).
Proof.
  intro Ho. unfold Stob.run in *. rewrite fold_left_app.
  apply stob_settled_fold; [exact Ho|].
  apply stob_run_inv; [|exact Ho].
  intro H. exfalso. apply H. reflexivity.
Qed.

(** ** The body phase of [parseData] *)

Lemma assign_obj a ps k x r : assign (JObj a ps) k x = Some r -> exists ps', r = JObj a ps'.
Proof.
  destruct a; cbn [assign].
  - destruct (String.eqb k "length").
    + destruct (same_prim _ x); [intro H; injection H as <-; eauto|].
      destruct (array_length_of x); [intro H; injection H as <-; eauto|discriminate].
    + intro H; injection H as <-; eauto.
  - intro H; injection H as <-; eauto.
Qed.

Lemma base_set_obj a ps p x r : base_set (JObj a ps) p x = Some r -> exists ps', r = JObj a ps'.
Proof.
  destruct p as [|k rest]; cbn [base_set]; [intro H; injection H as <-; eauto|].
  destruct (is_proto_key k); [intro H; injection H as <-; eauto|].
  destruct rest as [|k' rest]; [apply assign_obj|].
  destruct (assign (JObj a ps) k _) as [n1|] eqn:Ea; [|discriminate].
  destruct (assign_obj _ _ _ _ _ Ea) as [ps1 ->].
  destruct (read (JObj a ps1) k); try (intro H; injection H as <-; eauto).
  destruct (base_set _ _ x); [|discriminate]. intro H; injection H as <-. cbn [store]. eauto.
Qed.

Lemma set_obj a ps p x r : set (JObj a ps) p x = Some r -> exists ps', r = JObj a ps'.
Proof. unfold set. cbn [is_object]. apply base_set_obj. Qed.

Lemma push_obj ps x r : push (JObj true ps) x = Some r -> exists ps', r = JObj true ps'.
Proof.
  cbn [push]. destruct (_ <? _)%N; [|discriminate]. intro H; injection H as <-. eauto.
Qed.

Lemma header_step_obj ps kv r :
  Headers.header_step (JObj false ps) kv = Some r -> exists ps', r = JObj false ps'.
Proof.
  unfold Headers.header_step. destruct (negb _); [apply set_obj|].
  destruct (if is_array _ then _ else _); [apply set_obj|discriminate].
Qed.

Lemma extract_headers_obj hs h : Headers.extract_headers hs = Some h -> exists ps, h = JObj false ps.
Proof.
  unfold Headers.extract_headers. generalize (@nil (string * jv)).
  induction hs as [|kv hs IH]; intro ps; cbn [fold_left].
  - intro H; injection H as <-; eauto.
  - destruct (Headers.header_step (JObj false ps) kv) as [r|] eqn:E.
    + destruct (header_step_obj _ _ _ E) as [ps' ->]. apply IH.
    + clear IH. induction hs as [|kv' hs IH]; cbn [fold_left]; [discriminate|exact IH].
Qed.

(** [get(out, 'headers.content-type', default)] reads the extracted
    headers' own [content-type] key *)
Lemma content_type_of hs h :
  Headers.extract_headers hs = Some h ->
  get_default (JObj false [("headers", h)]) "headers.content-type" (JStr urlencoded)
  = match read h "content-type" with
    | JUndef => JStr urlencoded
    | x => x
    end.
Proof. intro E. destruct (extract_headers_obj hs h E) as [ps ->]. reflexivity. Qed.

Section BodyPhase.
Variable path_join : list string -> string.
Variable path_dirname : string -> string.
Variable os_tmpdir : string.
Variable parse_query : string -> jv.
Variable json_parse : string -> option jv.
Variable utf8_decode : bytes -> string.
Variable busboy : jv -> list stream_event -> option (list bb_event).

Lemma parseData_rejected o req evs fs :
  is_true (opt_headers o) || is_true (opt_body o) = true ->
  Headers.extract_headers (req_headers req) = None ->
  parseData path_join path_dirname os_tmpdir parse_query json_parse utf8_decode busboy o req evs fs
  = (PRejected, fs).
Proof. intros Ho He. unfold parseData, meta_of. rewrite Ho, He. reflexivity. Qed.

Lemma parseData_body o req evs fs h meta :
  is_true (opt_body o) = true ->
  Headers.extract_headers (req_headers req) = Some h ->
  meta_of parse_query o req = Some meta ->
  parseData path_join path_dirname os_tmpdir parse_query json_parse utf8_decode busboy o req evs fs
  = match decode_body path_join path_dirname os_tmpdir json_parse utf8_decode busboy o h evs fs with
    | (DecBody b, fs') => (PDone (with_body meta b), fs')
    | (DecFail _, fs') | (DecNone, fs') => (PDone meta, fs')
    | (DecPending, fs') => (PPending, fs')
    end.
Proof.
  intros H Hh Hm. unfold parseData. rewrite Hm, H.
  assert (E : out_headers meta = Some h).
  { unfold meta_of in Hm. rewrite H, orb_true_r, Hh in Hm. injection Hm as <-. reflexivity. }
  rewrite E. reflexivity.
Qed.

Lemma parseData_form o req evs fs h meta s :
  is_true (opt_body o) = true ->
  Headers.extract_headers (req_headers req) = Some h ->
  meta_of parse_query o req = Some meta ->
  match read h "content-type" with JUndef => JStr urlencoded | x => x end = JStr s ->
  (String.eqb urlencoded (Str.trim s) || Str.starts_with "multipart/form-data;" (Str.trim s)) = true ->
  parseData path_join path_dirname os_tmpdir parse_query json_parse utf8_decode busboy o req evs fs
  = match busboy (busboy_headers h) evs with
    | None => (PDone meta, fs)
    | Some bevs =>
        match fetch_body path_join path_dirname os_tmpdir (namespace o) (customBodyOptions o) fs bevs with
        | (Resolved r, fs') => (PDone (with_body meta r), fs')
        | (Rejected _, fs') => (PDone meta, fs')
        | (Pending, fs') => (PPending, fs')
        end
    end.
Proof.
  intros Hb Hh Hm Hct Hf. rewrite (parseData_body _ _ _ _ _ _ Hb Hh Hm).
  unfold decode_body. rewrite (content_type_of _ _ Hh), Hct. cbv beta iota zeta. rewrite Hf.
  destruct (busboy _ evs) as [bevs|]; [|reflexivity].
  destruct (fetch_body _ _ _ _ _ _ _) as [[|r|e] fs']; reflexivity.
Qed.

Lemma parseData_json o req evs fs h meta s :
  is_true (opt_body o) = true ->
  Headers.extract_headers (req_headers req) = Some h ->
  meta_of parse_query o req = Some meta ->
  match read h "content-type" with JUndef => JStr urlencoded | x => x end = JStr s ->
  Str.trim s = "application/json" ->
  parseData path_join path_dirname os_tmpdir parse_query json_parse utf8_decode busboy o req evs fs
  = (match stob_stream (max_size o) evs with
     | Resolved data =>
         match json_parse (utf8_decode data) with
         | Some v => PDone (with_body meta (JObj false [("fields", v)]))
         | None => PDone meta
         end
     | Rejected _ => PDone meta
     | Pending => PPending
     end, fs).
Proof.
  intros Hb Hh Hm Hct Ht. rewrite (parseData_body _ _ _ _ _ _ Hb Hh Hm).
  unfold decode_body. rewrite (content_type_of _ _ Hh), Hct. cbv beta iota zeta. rewrite Ht.
  assert (E : (String.eqb urlencoded "application/json"
               || Str.starts_with "multipart/form-data;" "application/json") = false) by reflexivity.
  rewrite E, String.eqb_refl.
  destruct (stob_stream _ evs) as [|data|e]; [reflexivity| |reflexivity].
  destruct (json_parse _); reflexivity.
Qed.

Lemma parseData_other o req evs fs h meta s :
  is_true (opt_body o) = true ->
  Headers.extract_headers (req_headers req) = Some h ->
  meta_of parse_query o req = Some meta ->
  match read h "content-type" with JUndef => JStr urlencoded | x => x end = JStr s ->
  (String.eqb urlencoded (Str.trim s) || Str.starts_with "multipart/form-data;" (Str.trim s)) = false ->
  String.eqb (Str.trim s) "application/json" = false ->
  parseData path_join path_dirname os_tmpdir parse_query json_parse utf8_decode busboy o req evs fs
  = (PDone meta, fs).
Proof.
  intros Hb Hh Hm Hct Hf Hj. rewrite (parseData_body _ _ _ _ _ _ Hb Hh Hm).
  unfold decode_body. rewrite (content_type_of _ _ Hh), Hct. cbv beta iota zeta. rewrite Hf, Hj.
  reflexivity.
Qed.

Lemma parseData_not_string o req evs fs h meta :
  is_true (opt_body o) = true ->
  Headers.extract_headers (req_headers req) = Some h ->
  meta_of parse_query o req = Some meta ->
  (forall s, match read h "content-type" with JUndef => JStr urlencoded | x => x end <> JStr s) ->
  parseData path_join path_dirname os_tmpdir parse_query json_parse utf8_decode busboy o req evs fs
  = (PDone meta, fs).
Proof.
  intros Hb Hh Hm Hct. rewrite (parseData_body _ _ _ _ _ _ Hb Hh Hm).
  unfold decode_body. rewrite (content_type_of _ _ Hh).
  destruct (match read h "content-type" with JUndef => JStr urlencoded | x => x end) eqn:E;
    try reflexivity.
  exfalso. exact (Hct _ eq_refl).
Qed.


End BodyPhase.

(** C5 (amended): with [body: true], an exception of the header loop
    rejects [parseData] before any body decoding.  Otherwise the content
    type is the extracted [content-type] header,
    [application/x-www-form-urlencoded] when it is absent, and it is
    compared after [.trim()].  A trimmed value equal to
    [application/x-www-form-urlencoded] or starting with
    [multipart/form-data;] goes to the tokenizer and the result follows
    [fetchBody]; a trimmed value equal to [application/json] is buffered by
    [stob], decoded and parsed, and recorded as [{fields: value}]; any
    other string gives no body; and a value that is not a string (a header
    sent twice is a list) makes [.trim()] throw, which is caught: no body. *)
Theorem C5_content_type_dispatch pj pd ot pq jp ud bb o req evs fs :
  is_true (opt_body o) = true ->
  (Headers.extract_headers (req_headers req) = None ->
   parseData pj pd ot pq jp ud bb o req evs fs = (PRejected, fs))
  /\ forall h meta,
  Headers.extract_headers (req_headers req) = Some h ->
  meta_of pq o req = Some meta ->
  (forall s,
     match read h "content-type" with JUndef => JStr urlencoded | x => x end = JStr s ->
     (String.eqb urlencoded (Str.trim s) || Str.starts_with "multipart/form-data;" (Str.trim s)) = true ->
     parseData pj pd ot pq jp ud bb o req evs fs
     = match bb (busboy_headers h) evs with
       | None => (PDone meta, fs)
       | Some bevs =>
           match fetch_body pj pd ot (namespace o) (customBodyOptions o) fs bevs with
           | (Resolved r, fs') => (PDone (with_body meta r), fs')
           | (Rejected _, fs') => (PDone meta, fs')
           | (Pending, fs') => (PPending, fs')
           end
       end)
  /\ (forall s,
     match read h "content-type" with JUndef => JStr urlencoded | x => x end = JStr s ->
     Str.trim s = "application/json" ->
     parseData pj pd ot pq jp ud bb o req evs fs
     = (match stob_stream (max_size o) evs with
        | Resolved data =>
            match jp (ud data) with
            | Some v => PDone (with_body meta (JObj false [("fields", v)]))
            | None => PDone meta
            end
        | Rejected _ => PDone meta
        | Pending => PPending
        end, fs))
  /\ (forall s,
     match read h "content-type" with JUndef => JStr urlencoded | x => x end = JStr s ->
     (String.eqb urlencoded (Str.trim s) || Str.starts_with "multipart/form-data;" (Str.trim s)) = false ->
     String.eqb (Str.trim s) "application/json" = false ->
     parseData pj pd ot pq jp ud bb o req evs fs = (PDone meta, fs))
  /\ ((forall s, match read h "content-type" with JUndef => JStr urlencoded | x => x end <> JStr s) ->
     parseData pj pd ot pq jp ud bb o req evs fs = (PDone meta, fs)).
Proof.
  intro Hb. split.
  { intro He. apply parseData_rejected; [rewrite Hb, orb_true_r; reflexivity | exact He]. }
  intros h meta Hh Hm. split; [|split; [|split]].
  - intros s Hct Hf. exact (parseData_form pj pd ot pq jp ud bb o req evs fs h meta s Hb Hh Hm Hct Hf).
  - intros s Hct Ht. exact (parseData_json pj pd ot pq jp ud bb o req evs fs h meta s Hb Hh Hm Hct Ht).
  - intros s Hct Hf Hj.
    exact (parseData_other pj pd ot pq jp ud bb o req evs fs h meta s Hb Hh Hm Hct Hf Hj).
  - intro Hct. exact (parseData_not_string pj pd ot pq jp ud bb o req evs fs h meta Hb Hh Hm Hct).
Qed.

Lemma C5_witness :
  Demo.run (Demo.body_opts None None) [] [BField "a" "1"; BFinish] [] []
  = (PDone {| out_headers := Some (JObj false []); out_query := None; out_path := None;
              out_method := None;
              out_body := Some (JObj false [("fields", JObj false [("a", JStr "1")])]) |}, [])
  /\ Demo.run (Demo.body_opts None None) [("a.0", "x"); ("a.length.b", "y")] [] [] []
     = (PRejected, []).
Proof.
  unfold Demo.run.
  pose proof (C5_content_type_dispatch Demo.join Demo.dirname Demo.tmp Demo.query Demo.json Demo.utf8
                (fun _ _ => Some [BField "a" "1"; BFinish]) (Demo.body_opts None None) (Demo.req [])
                [] [] ltac:(reflexivity)) as [_ Hs].
  destruct (Hs (JObj false []) {| out_headers := Some (JObj false []); out_query := None;
                                  out_path := None; out_method := None; out_body := None |}
              eq_refl eq_refl) as [Hf _].
  split.
  - rewrite (Hf urlencoded eq_refl ltac:(vm_compute; reflexivity)). vm_compute. reflexivity.
  - apply (C5_content_type_dispatch Demo.join Demo.dirname Demo.tmp Demo.query Demo.json Demo.utf8
             (fun _ _ => Some []) (Demo.body_opts None None) (Demo.req [("a.0", "x"); ("a.length.b", "y")])
             [] [] eq_refl).
    vm_compute. reflexivity.
Defined.



(** ** The byte-stream bridge *)

Lemma pull_end_iff l :
  In Bridge.PEnd (flat_map Bridge.on_data l) <-> exists c, In (c, true) l.
Proof.
  rewrite in_flat_map. split.
  - intros [[c b] [Hin Hp]]. destruct b; cbn in Hp.
    + exists c. exact Hin.
    + destruct Hp as [E|[]]. discriminate.
  - intros [c Hin]. exists (c, true). split; [exact Hin|]. cbn. auto.
Qed.

(** C8: uWS.js throws on any use of an aborted response, so the
    [res.onData] call made by the bridge's [_read] throws: a pull on the
    bridge of an aborted response pushes no chunk and does not end the
    stream.  (On a live response the bridge ends the stream only after a
    chunk flagged as the last one: [pull_end_iff].) *)
Theorem C8_aborted_pull_throws res :
  Bridge.aborted res = true ->
  Bridge.pull res = None /\ Bridge.pull res <> Some [Bridge.PEnd].
Proof.
  intro H. unfold Bridge.pull, Bridge.deliveries. rewrite H. split; [reflexivity | discriminate].
Qed.

Lemma C8_witness :
  Bridge.aborted {| Bridge.aborted := true; Bridge.incoming := [([Byte.x00], true)] |} = true
  /\ Bridge.pull {| Bridge.aborted := true; Bridge.incoming := [([Byte.x00], true)] |} = None
  /\ Bridge.pull {| Bridge.aborted := true; Bridge.incoming := [([Byte.x00], true)] |}
     <> Some [Bridge.PEnd].
Proof.
  split; [reflexivity|].
  apply (C8_aborted_pull_throws {| Bridge.aborted := true; Bridge.incoming := [([Byte.x00], true)] |}).
  reflexivity.
Defined.

(** * Further properties of the code *)

(** ** [writeHeaders] *)

Lemma insert_key_perm k ks : Permutation (Write.insert_key k ks) (k :: ks).
Proof.
  induction ks as [|k' ks IH]; cbn [Write.insert_key]; [reflexivity|].
  destruct (Write.index_leb k k'); [reflexivity|].
  rewrite IH. apply perm_swap.
Qed.

Lemma sort_keys_perm ks : Permutation (fold_right Write.insert_key [] ks) ks.
Proof.
  induction ks as [|k ks IH]; cbn [fold_right]; [reflexivity|].
  rewrite insert_key_perm, IH. reflexivity.
Qed.

Lemma filter_split_perm (f : string -> bool) l :
  Permutation (filter f l ++ filter (fun k => negb (f k)) l) l.
Proof.
  induction l as [|a l IH]; cbn [filter]; [reflexivity|].
  destruct (f a); cbn [negb app].
  - constructor. exact IH.
  - rewrite <- Permutation_middle. constructor. exact IH.
Qed.

Lemma for_in_keys_perm ps : Permutation (Write.for_in_keys ps) (map fst ps).
Proof.
  unfold Write.for_in_keys. rewrite sort_keys_perm. apply filter_split_perm.
Qed.

Lemma filter_none (f : string -> bool) l : Forall (fun x => f x = false) l -> filter f l = [].
Proof. induction 1 as [|x l Hx _ IH]; cbn [filter]; [reflexivity|]. rewrite Hx. exact IH. Qed.

Lemma filter_all (f : string -> bool) l : Forall (fun x => f x = true) l -> filter f l = l.
Proof. induction 1 as [|x l Hx _ IH]; cbn [filter]; [reflexivity|]. rewrite Hx, IH. reflexivity. Qed.

Lemma write_lookup_ext ps ps' ks :
  (forall n, In n ks -> Write.lookup n ps = Write.lookup n ps') ->
  flat_map (fun n => match Write.lookup n ps with Some v => [(n, v)] | None => [] end) ks
  = flat_map (fun n => match Write.lookup n ps' with Some v => [(n, v)] | None => [] end) ks.
Proof.
  induction ks as [|k ks IH]; intro H; [reflexivity|].
  cbn [flat_map]. rewrite (H k (or_introl eq_refl)), IH; [reflexivity|].
  intros n Hn. apply H. right. exact Hn.
Qed.

Lemma write_own_keys ps :
  NoDup (map fst ps) ->
  flat_map (fun n => match Write.lookup n ps with Some v => [(n, v)] | None => [] end) (map fst ps) = ps.
Proof.
  induction ps as [|[k v] ps IH]; intro Hnd; [reflexivity|].
  inversion Hnd as [|? ? Hk Hnd']. subst.
  cbn [map flat_map fst Write.lookup]. rewrite String.eqb_refl. cbn [app].
  rewrite (write_lookup_ext ((k, v) :: ps) ps); [rewrite IH by exact Hnd'; reflexivity|].
  intros n Hn. cbn [Write.lookup].
  destruct (String.eqb n k) eqn:E; [|reflexivity].
  apply String.eqb_eq in E. subst. contradiction.
Qed.

(** [writeHeaders(res, name, value)] with two strings writes that one
    header; a string name with no value writes nothing; an object writes
    each of its entries exactly once, with its own value, whatever [other]
    is, and in creation order when no name is an array index (the indices
    come first, in increasing order). *)
Theorem write_headers_calls :
  (forall h o, Write.writeHeaders (Write.HName h) (Some o) = [(h, o)])
  /\ (forall h, Write.writeHeaders (Write.HName h) None = [])
  /\ (forall ps o, NoDup (map fst ps) -> Permutation (Write.writeHeaders (Write.HRecord ps) o) ps)
  /\ (forall ps o, NoDup (map fst ps) -> Forall (fun kv => Write.array_index (fst kv) = None) ps ->
      Write.writeHeaders (Write.HRecord ps) o = ps).
Proof.
  split; [reflexivity|]. split; [reflexivity|]. split.
  - intros ps o Hnd. cbn [Write.writeHeaders].
    rewrite (Permutation_flat_map _ (for_in_keys_perm ps)), write_own_keys by exact Hnd.
    reflexivity.
  - intros ps o Hnd Hni. cbn [Write.writeHeaders].
    assert (Hk : Write.for_in_keys ps = map fst ps).
    { assert (Hf : Forall (fun k => Write.is_array_index k = false) (map fst ps)).
      { apply Forall_map. eapply Forall_impl; [|exact Hni].
        intros [k v] H. unfold Write.is_array_index. cbn [fst] in *. rewrite H. reflexivity. }
      unfold Write.for_in_keys. rewrite filter_none, filter_all; [reflexivity| |exact Hf].
      eapply Forall_impl; [|exact Hf]. intros k H. rewrite H. reflexivity. }
    rewrite Hk. apply write_own_keys. exact Hnd.
Qed.

Lemma write_headers_calls_witness :
  Permutation (Write.writeHeaders (Write.HRecord [("x", "1"); ("2", "b"); ("0", "a")]) (Some "ignored"))
    [("x", "1"); ("2", "b"); ("0", "a")]
  /\ Write.writeHeaders (Write.HRecord [("x", "1"); ("y", "2")]) None = [("x", "1"); ("y", "2")].
Proof.
  destruct write_headers_calls as [_ [_ [Hp Ho]]]. split.
  - apply Hp. repeat constructor; simpl; intuition discriminate.
  - apply Ho; [repeat constructor; simpl; intuition discriminate | repeat constructor].
Defined.

(** ** The file system *)













Section Preserve.
Variable path_join : list string -> string.
Variable path_dirname : string -> string.
Variable os_tmpdir : string.
Variable parse_query : string -> jv.
Variable json_parse : string -> option jv.
Variable utf8_decode : bytes -> string.
Variable busboy : jv -> list stream_event -> option (list bb_event).




End Preserve.



(** ** The file handler's policy *)

(** A [customBodyOptions] whose slots are absent or falsy static values
    behaves as no [customBodyOptions] at all: the [if (slot)] tests skip
    them, so in particular a static [handle: false] does not stop the
    write. *)
Theorem falsy_static_hooks_are_ignored pj pd ot ns c ret fs fi :
  (cb_handle c = HNone \/ cb_handle c = HStatic false) ->
  (cb_tmpDir c = HNone \/ cb_tmpDir c = HStatic "") ->
  (cb_folder c = HNone \/ cb_folder c = HStatic "") ->
  (cb_saveAs c = HNone \/ cb_saveAs c = HStatic "") ->
  on_file pj pd ot ns (Some c) ret fs fi = on_file pj pd ot ns None ret fs fi.
Proof.
  intros Hh Ht Hf Hs. unfold on_file.
  assert (E : resolve_policy ot (Some c) fi = resolve_policy ot None fi).
  { unfold resolve_policy.
    destruct Ht as [-> | ->]; destruct Hf as [-> | ->]; destruct Hh as [-> | ->];
      destruct Hs as [-> | ->]; reflexivity. }
  rewrite E. reflexivity.
Qed.

Lemma falsy_static_hooks_are_ignored_witness :
  on_file Demo.join Demo.dirname Demo.tmp None
    (Some {| cb_handle := HStatic false; cb_tmpDir := HStatic ""; cb_folder := HNone; cb_saveAs := HNone |})
    (JObj false []) [] (Demo.part "f")
  = on_file Demo.join Demo.dirname Demo.tmp None None (JObj false []) [] (Demo.part "f").
Proof.
  apply falsy_static_hooks_are_ignored; cbn; auto.
Defined.



(** ** [stob] *)

Lemma stob_inv_step m st e :
  (Stob.outcome st <> Pending -> Stob.has_ended st = true) ->
  (Stob.destroyed st = true <-> Stob.outcome st = Rejected "MAX_SIZE_EXCEEDED") ->
  (forall x, Stob.outcome st = Rejected x -> x = "MAX_SIZE_EXCEEDED") ->
  (Stob.outcome (Stob.step m st e) <> Pending -> Stob.has_ended (Stob.step m st e) = true)
  /\ (Stob.destroyed (Stob.step m st e) = true
      <-> Stob.outcome (Stob.step m st e) = Rejected "MAX_SIZE_EXCEEDED")
  /\ (forall x, Stob.outcome (Stob.step m st e) = Rejected x -> x = "MAX_SIZE_EXCEEDED").
Proof.
  intros H1 H2 H3.
  destruct st as [he bf ln oc ds mm]; cbn [Stob.outcome Stob.has_ended Stob.destroyed] in H1, H2, H3.
  destruct e as [r| |]; cbn [Stob.step]; [unfold Stob.on_data | unfold Stob.on_end | auto].
  - cbn [Stob.buffers Stob.has_ended Stob.mem Stob.alloc Stob.length Stob.outcome Stob.destroyed].
    destruct bf as [bs|]; [|auto]. destruct he; [auto|].
    assert (Ho : oc = Pending) by (destruct oc; [reflexivity | |]; exfalso; discriminate (H1 ltac:(discriminate))).
    subst oc. destruct (Nat.eqb m 0); [auto|].
    destruct (Nat.ltb _ _); cbn [Stob.outcome Stob.has_ended Stob.destroyed settle]; [|auto].
    split; [intros _; reflexivity|]. split; [tauto|]. intros x Hx. injection Hx as <-. reflexivity.
  - cbn [Stob.buffers Stob.mem Stob.alloc].
    destruct bf as [[|b0 [|b1 bs]]|]; cbn [Stob.outcome Stob.has_ended Stob.destroyed];
      (split; [intros _; reflexivity|]);
      (destruct oc; cbn [settle];
       [ split; [split; [intro Hd; apply H2 in Hd; discriminate | discriminate] | discriminate]
       | exact (conj H2 H3) | exact (conj H2 H3) ]).
Qed.

(** [stob] destroys its stream exactly when it has rejected, and the only
    reason it ever rejects with is [MAX_SIZE_EXCEEDED], whatever the
    events are and in whatever order they come. *)
Theorem stob_destroys_iff_rejects m h es :
  (Stob.destroyed (Stob.run m h es) = true
   <-> Stob.outcome (Stob.run m h es) = Rejected "MAX_SIZE_EXCEEDED")
  /\ (forall x, Stob.outcome (Stob.run m h es) = Rejected x -> x = "MAX_SIZE_EXCEEDED").
Proof.
  unfold Stob.run.
  enough (G : forall st,
    (Stob.outcome st <> Pending -> Stob.has_ended st = true) ->
    (Stob.destroyed st = true <-> Stob.outcome st = Rejected "MAX_SIZE_EXCEEDED") ->
    (forall x, Stob.outcome st = Rejected x -> x = "MAX_SIZE_EXCEEDED") ->
    (Stob.destroyed (fold_left (Stob.step m) es st) = true
     <-> Stob.outcome (fold_left (Stob.step m) es st) = Rejected "MAX_SIZE_EXCEEDED")
    /\ (forall x, Stob.outcome (fold_left (Stob.step m) es st) = Rejected x -> x = "MAX_SIZE_EXCEEDED")).
  { apply G; cbn.
    - intro H. exfalso. apply H. reflexivity.
    - split; discriminate.
    - discriminate. }
  induction es as [|e es IH]; intros st H1 H2 H3; [auto|].
  cbn [fold_left]. destruct (stob_inv_step m st e H1 H2 H3) as (J1 & J2 & J3). apply IH; assumption.
Qed.

Lemma stob_live0 h rs :
  Forall (fun r => r < List.length h) rs ->
  forall bs n ys,
  fold_left (Stob.step 0) (map Stob.SData rs) (Stob.mk false (Some bs) n Pending false (h ++ ys))
  = Stob.mk false (Some (bs ++ seq (List.length (h ++ ys)) (List.length rs))) n Pending false
      ((h ++ ys) ++ map (Stob.deref h) rs).
Proof.
  induction 1 as [|r rs Hr Hf IH]; intros bs n ys.
  - cbn. rewrite !app_nil_r. reflexivity.
  - cbn [map fold_left Stob.step List.length seq]. unfold Stob.on_data.
    cbn [Stob.buffers Stob.has_ended Stob.mem Stob.alloc Stob.length Stob.outcome Stob.destroyed Nat.eqb].
    rewrite (deref_app _ _ _ Hr), <- (app_assoc h ys [Stob.deref h r]), IH.
    rewrite <- !app_assoc. cbn [app].
    replace (List.length (h ++ ys ++ [Stob.deref h r])) with (S (List.length (h ++ ys)))
      by (rewrite app_assoc, (length_app (h ++ ys) [Stob.deref h r]); cbn; lia).
    reflexivity.
Qed.

(** With [maxSize] 0, which is what [limits.fieldSize: 0] gives, [stob]
    has no size limit: a stream of [data] events then [end] resolves with
    the chunks concatenated in order, and the stream is not destroyed. *)
Theorem stob_zero_max_size_is_unlimited h rs :
  Forall (fun r => r < List.length h) rs ->
  Stob.destroyed (Stob.run 0 h (map Stob.SData rs ++ [Stob.SEnd])) = false
  /\ exists r, Stob.outcome (Stob.run 0 h (map Stob.SData rs ++ [Stob.SEnd])) = Resolved r
     /\ Stob.deref (Stob.mem (Stob.run 0 h (map Stob.SData rs ++ [Stob.SEnd]))) r
        = concat (map (Stob.deref h) rs).
Proof.
  intro Hf. unfold Stob.run, Stob.init. rewrite fold_left_app. cbn [fold_left Stob.step].
  pose proof (stob_live0 h rs Hf [] 0 []) as L. rewrite !app_nil_r in L. cbn [app] in L. rewrite L.
  destruct (stob_on_end_live (seq (List.length h) (List.length rs)) 0 (h ++ map (Stob.deref h) rs))
    as [Hd [r [Ho Hr]]].
  split; [exact Hd|]. exists r. split; [exact Ho|]. rewrite Hr.
  rewrite <- (length_map (Stob.deref h) rs), deref_seq. reflexivity.
Qed.

Lemma stob_zero_max_size_is_unlimited_witness :
  Stob.destroyed (Stob.run 0 [[Byte.x00; Byte.x01]; [Byte.x02]] (map Stob.SData [0; 1] ++ [Stob.SEnd])) = false.
Proof.
  apply (stob_zero_max_size_is_unlimited [[Byte.x00; Byte.x01]; [Byte.x02]] [0; 1]).
  repeat constructor.
Defined.

(** ** The header loop *)

Lemma put_absent k v ps : assoc k ps = None -> put k v ps = ps ++ [(k, v)].
Proof.
  induction ps as [|[k' v'] ps IH]; intro H; [reflexivity|].
  cbn [assoc] in H. cbn [put]. destruct (String.eqb k k'); [discriminate|].
  rewrite IH by exact H. reflexivity.
Qed.

Lemma assoc_app_none k ps k' x : assoc k ps = None -> k <> k' -> assoc k (ps ++ [(k', x)]) = None.
Proof.
  intros H Hne. induction ps as [|[k'' v] ps IH]; cbn [app assoc].
  - apply String.eqb_neq in Hne. rewrite Hne. reflexivity.
  - cbn [assoc] in H. destruct (String.eqb k k''); [discriminate|]. exact (IH H).
Qed.

Lemma fold_extract_none l :
  fold_left (fun acc kv => match acc with Some h => Headers.header_step h kv | None => None end)
    l None = None.
Proof. induction l as [|kv l IH]; [reflexivity|exact IH]. Qed.

Lemma assoc_filter_none k f ps : assoc k ps = None -> assoc k (filter f ps) = None.
Proof.
  induction ps as [|[k' v] ps IH]; intro H; [reflexivity|].
  cbn [assoc] in H. destruct (String.eqb k k') eqn:E; [discriminate|].
  cbn [filter]. destruct (f (k', v)); cbn [assoc]; rewrite ?E; exact (IH H).
Qed.

Lemma length_not_proto : is_proto_key "length" = false.
Proof. reflexivity. Qed.

(** the top-level keys an assignment adds are the key assigned, or
    [length] *)
Lemma assign_no_proto a ps k0 x r :
  is_proto_key k0 = false -> assign (JObj a ps) k0 x = Some r ->
  exists ps', r = JObj a ps' /\
  forall k, is_proto_key k = true -> assoc k ps = None -> assoc k ps' = None.
Proof.
  intros Hk0 H.
  assert (Ne : forall k, is_proto_key k = true -> k <> k0) by (intros k Hk E; subst; congruence).
  assert (Nl : forall k, is_proto_key k = true -> k <> "length"%string)
    by (intros k Hk E; subst; discriminate).
  destruct a; cbn [assign] in H.
  - destruct (String.eqb k0 "length").
    + destruct (same_prim _ x); [injection H as <-; eexists; split; [reflexivity|auto]|].
      destruct (array_length_of x) as [n|]; [injection H as <-|discriminate].
      eexists; split; [reflexivity|]. intros k Hk Ha. unfold set_length.
      destruct (arr_len _ <? n)%N.
      * apply assoc_app_none; [apply assoc_filter_none; exact Ha | exact (Nl k Hk)].
      * apply assoc_filter_none; exact Ha.
    + injection H as <-. eexists; split; [reflexivity|].
      intros k Hk Ha. rewrite assoc_put_other; [exact Ha|exact (Ne k Hk)].
  - injection H as <-. eexists; split; [reflexivity|].
    intros k Hk Ha. rewrite assoc_put_other; [exact Ha|exact (Ne k Hk)].
Qed.

Lemma base_set_no_proto a ps path x r :
  base_set (JObj a ps) path x = Some r ->
  exists ps', r = JObj a ps' /\
  forall k, is_proto_key k = true -> assoc k ps = None -> assoc k ps' = None.
Proof.
  destruct path as [|k0 rest]; cbn [base_set].
  { intro H; injection H as <-; eauto. }
  destruct (is_proto_key k0) eqn:Ep; [intro H; injection H as <-; eauto|].
  destruct rest as [|k' rest]; [apply assign_no_proto; exact Ep|].
  destruct (assign (JObj a ps) k0 _) as [n1|] eqn:Ea; [|discriminate].
  destruct (assign_no_proto _ _ _ _ _ Ep Ea) as [ps1 [-> H1]].
  assert (Ne : forall k, is_proto_key k = true -> k <> k0) by (intros k Hk E; subst; congruence).
  destruct (read (JObj a ps1) k0); try (intro H; injection H as <-; eauto).
  destruct (base_set _ _ x); [|discriminate]. intro H; injection H as <-. cbn [store].
  eexists; split; [reflexivity|]. intros k Hk Ha. rewrite assoc_put_other; [exact (H1 k Hk Ha)|exact (Ne k Hk)].
Qed.

Lemma header_step_no_proto ps kv r :
  (forall k, is_proto_key k = true -> assoc k ps = None) ->
  Headers.header_step (JObj false ps) kv = Some r ->
  exists ps', r = JObj false ps' /\ forall k, is_proto_key k = true -> assoc k ps' = None.
Proof.
  intros Hn H. unfold Headers.header_step in H. unfold set in H. cbn [is_object] in H.
  destruct (negb _).
  - destruct (base_set_no_proto _ _ _ _ _ H) as [ps' [-> H']]. eauto.
  - destruct (if is_array _ then _ else _) as [val'|]; [|discriminate].
    destruct (base_set_no_proto _ _ _ _ _ H) as [ps' [-> H']]. eauto.
Qed.

(** the extracted headers never have an own [__proto__], [constructor]
    or [prototype] key *)
Lemma extract_headers_no_proto l h :
  Headers.extract_headers l = Some h ->
  exists ps, h = JObj false ps /\ forall k, is_proto_key k = true -> assoc k ps = None.
Proof.
  unfold Headers.extract_headers.
  assert (G : forall ps, (forall k, is_proto_key k = true -> assoc k ps = None) ->
    fold_left (fun acc kv => match acc with Some h => Headers.header_step h kv | None => None end)
      l (Some (JObj false ps)) = Some h ->
    exists ps, h = JObj false ps /\ forall k, is_proto_key k = true -> assoc k ps = None).
  { induction l as [|kv l IH]; intros ps Hn; cbn [fold_left].
    - intro H; injection H as <-; eauto.
    - destruct (Headers.header_step (JObj false ps) kv) as [r|] eqn:E.
      + destruct (header_step_no_proto _ _ _ Hn E) as [ps' [-> H']]. exact (IH ps' H').
      + rewrite fold_extract_none. discriminate. }
  apply G. intros; reflexivity.
Qed.

Lemma header_step_proto ps k v :
  is_proto_key (Str.to_lower k) = true -> assoc (Str.to_lower k) ps = None ->
  Headers.header_step (JObj false ps) (k, v) = Some (JObj false ps).
Proof.
  intros H Ha. unfold Headers.header_step. cbn [fst snd].
  assert (Hc : forall o, cast_path (Str.to_lower k) o = [Str.to_lower k]).
  { intro o. unfold cast_path, is_key. unfold is_proto_key in H.
    apply orb_true_iff in H as [H|H]; [apply orb_true_iff in H as [H|H]|];
      apply String.eqb_eq in H; rewrite H; reflexivity. }
  unfold has, set. rewrite !Hc. cbn [has_path has_own is_object]. rewrite Ha.
  cbn [andb orb negb base_set]. rewrite H. reflexivity.
Qed.

(** A header whose lowercased name is [__proto__], [constructor] or
    [prototype] is dropped: lodash's [set] refuses those keys, so the
    extracted headers are those of the request without it. *)
Theorem proto_named_header_is_dropped l1 k v l2 :
  is_proto_key (Str.to_lower k) = true ->
  Headers.extract_headers (l1 ++ (k, v) :: l2) = Headers.extract_headers (l1 ++ l2).
Proof.
  intro H. unfold Headers.extract_headers. rewrite !fold_left_app. cbn [fold_left].
  destruct (fold_left _ l1 (Some (JObj false []))) as [h|] eqn:E1; [|reflexivity].
  destruct (extract_headers_no_proto l1 h E1) as [ps [-> Hn]].
  rewrite (header_step_proto ps k v H (Hn _ H)). reflexivity.
Qed.

Lemma proto_named_header_is_dropped_witness :
  Headers.extract_headers [("Host", "h"); ("Constructor", "x")] = Headers.extract_headers [("Host", "h")].
Proof.
  apply (proto_named_header_is_dropped [("Host", "h")] "Constructor" "x" []). vm_compute. reflexivity.
Defined.

Lemma cast_path_shallow k o :
  is_deep_prop (Str.to_lower k) = false -> cast_path (Str.to_lower k) o = [Str.to_lower k].
Proof. intro Hd. unfold cast_path, is_key. rewrite Hd, orb_true_r. reflexivity. Qed.

Lemma header_step_fresh acc k v :
  is_deep_prop (Str.to_lower k) = false -> is_proto_key (Str.to_lower k) = false ->
  assoc (Str.to_lower k) acc = None ->
  Headers.header_step (JObj false acc) (k, v) = Some (JObj false (acc ++ [(Str.to_lower k, JStr v)])).
Proof.
  intros Hd Hp Ha. unfold Headers.header_step. cbn [fst snd].
  unfold has, set. rewrite !(cast_path_shallow k _ Hd). cbn [has_path has_own is_object].
  rewrite Ha. cbn [andb orb negb base_set]. rewrite Hp. cbn [assign].
  rewrite put_absent by exact Ha. reflexivity.
Qed.

(** a name already extracted: [val] is what is stored, and the new value
    is stored in place *)
Lemma header_step_seen acc k v x :
  is_deep_prop (Str.to_lower k) = false -> is_proto_key (Str.to_lower k) = false ->
  assoc (Str.to_lower k) acc = Some x ->
  Headers.header_step (JObj false acc) (k, v)
  = match (if is_array x then push x (JStr v) else Some (JObj true [("0", x)])) with
    | Some x' => Some (JObj false (put (Str.to_lower k) x' acc))
    | None => None
    end.
Proof.
  intros Hd Hp Ha. unfold Headers.header_step. cbn [fst snd].
  unfold has, get, set. rewrite !(cast_path_shallow k _ Hd). cbn [has_path has_own is_object get_path read].
  rewrite Ha. cbn [orb negb].
  destruct (if is_array x then _ else _) as [x'|]; [|reflexivity].
  cbn [base_set]. rewrite Hp. reflexivity.
Qed.

(** Headers whose lowercased names are distinct, are not lodash deep paths
    (no [.] and no bracket pair) and are not [__proto__], [constructor] or
    [prototype] are extracted in arrival order, each under its lowercased
    name with its value as a string. *)
Theorem extract_distinct_headers l :
  NoDup (map (fun kv => Str.to_lower (fst kv)) l) ->
  Forall (fun kv => is_deep_prop (Str.to_lower (fst kv)) = false
                    /\ is_proto_key (Str.to_lower (fst kv)) = false) l ->
  Headers.extract_headers l = Some (JObj false (map (fun kv => (Str.to_lower (fst kv), JStr (snd kv))) l)).
Proof.
  intros Hnd Hf. unfold Headers.extract_headers.
  enough (G : forall acc,
    (forall kv, In kv l -> assoc (Str.to_lower (fst kv)) acc = None) ->
    fold_left (fun acc kv => match acc with Some h => Headers.header_step h kv | None => None end)
      l (Some (JObj false acc))
    = Some (JObj false (acc ++ map (fun kv => (Str.to_lower (fst kv), JStr (snd kv))) l)))
    by (apply G; intros; reflexivity).
  induction l as [|[k v] l IH]; intros acc Ha; cbn [fold_left map].
  - rewrite app_nil_r. reflexivity.
  - inversion Hnd as [|? ? Hk Hnd']. inversion Hf as [|? ? [Hd Hp] Hf']. subst. cbn [fst snd] in *.
    rewrite header_step_fresh by (auto; exact (Ha (k, v) (or_introl eq_refl))).
    rewrite (IH Hnd' Hf').
    + rewrite <- app_assoc. reflexivity.
    + intros [k' v'] Hin. cbn [fst]. apply assoc_app_none.
      * exact (Ha (k', v') (or_intror Hin)).
      * intro E. apply Hk. rewrite <- E. apply (in_map (fun kv => Str.to_lower (fst kv)) _ _ Hin).
Qed.

Lemma extract_distinct_headers_witness :
  Headers.extract_headers [("Content-Type", "application/json"); ("Host", "x")]
  = Some (JObj false [("content-type", JStr "application/json"); ("host", JStr "x")]).
Proof.
  apply (extract_distinct_headers [("Content-Type", "application/json"); ("Host", "x")]);
    vm_compute; repeat constructor; cbn; intuition discriminate.
Defined.

(** ** The [field] listener of [fetchBody] *)









(** ** Rejection does not detach the [file] listener *)



(** ** Repeated headers *)

(** [parseIndex] reads back the decimal text [String(i)] that [push]
    writes, below [Number.MAX_SAFE_INTEGER] *)
Lemma digits_val_uint u acc :
  digits_val (NilEmpty.string_of_uint u) (Npos acc) = Some (Npos (Pos.of_uint_acc u acc)).
Proof.
  revert acc. induction u as [|u IH|u IH|u IH|u IH|u IH|u IH|u IH|u IH|u IH|u IH]; intro acc;
    [reflexivity| ..]; cbn [NilEmpty.string_of_uint digits_val Pos.of_uint_acc];
    cbn [NilEmpty.string_of_uint digits_val Pos.of_uint_acc];
    match goal with |- context [nat_of_ascii ?c] =>
      let v := eval vm_compute in (nat_of_ascii c) in change (nat_of_ascii c) with v end;
    cbn [Nat.leb andb Nat.sub]; rewrite <- IH; f_equal; lia.
Qed.

Lemma parse_index_N_to_string n :
  (n < 9007199254740991)%N -> parse_index (N_to_string n) = Some n.
Proof.
  intro Hb. destruct n as [|p]; [reflexivity|].
  unfold N_to_string. cbn [N.to_uint].
  pose proof (DecimalPos.Unsigned.of_to p) as Hn.
  pose proof (DecimalPos.Unsigned.to_of (Pos.to_uint p)) as Hu. rewrite Hn in Hu. cbn [N.to_uint] in Hu.
  pose proof (DecimalPos.Unsigned.to_uint_nonzero p) as Hz.
  pose proof (DecimalPos.Unsigned.to_uint_nonnil p) as Hnil.
  destruct (Pos.to_uint p) as [|u|u|u|u|u|u|u|u|u|u]; [contradiction| | ..].
  1: { exfalso. unfold Decimal.unorm in Hu. destruct (Decimal.nzhead (Decimal.D0 u)) eqn:Ez.
    + injection Hu as Hu'. subst u. apply Hz. reflexivity.
    + exact (DecimalFacts.nzhead_nonzero _ _ Ez).
    + discriminate. + discriminate. + discriminate. + discriminate. + discriminate.
    + discriminate. + discriminate. + discriminate. + discriminate. }
  all: cbn [N.of_uint Pos.of_uint] in Hn; cbn [NilEmpty.string_of_uint parse_index];
    match goal with |- context [nat_of_ascii ?c] =>
      let v := eval vm_compute in (nat_of_ascii c) in change (nat_of_ascii c) with v end;
    cbn [Nat.eqb Nat.leb andb Nat.sub digits_val];
    match goal with |- context [nat_of_ascii ?c] =>
      let v := eval vm_compute in (nat_of_ascii c) in change (nat_of_ascii c) with v end;
    cbn [Nat.eqb Nat.leb andb Nat.sub N.of_nat N.mul N.add];
    rewrite digits_val_uint; cbn [PosDef.Pos.of_succ_nat PosDef.Pos.succ]; rewrite Hn;
    rewrite (proj2 (N.ltb_lt _ _) Hb); reflexivity.
Qed.

Lemma N_to_string_inj i j :
  (i < 9007199254740991)%N -> (j < 9007199254740991)%N -> N_to_string i = N_to_string j -> i = j.
Proof.
  intros Hi Hj E. pose proof (parse_index_N_to_string i Hi) as Pi.
  rewrite E, (parse_index_N_to_string j Hj) in Pi. injection Pi as <-. reflexivity.
Qed.

Lemma index_props_app s ws x :
  index_props s (ws ++ [x]) = index_props s ws ++ [(N_to_string (s + N.of_nat (List.length ws)), x)].
Proof.
  revert s. induction ws as [|w ws IH]; intro s; cbn [app index_props List.length].
  - rewrite N.add_0_r. reflexivity.
  - rewrite IH. replace (s + N.of_nat (S (List.length ws)))%N with (s + 1 + N.of_nat (List.length ws))%N by lia.
    reflexivity.
Qed.

Lemma arr_len_index_props ws :
  (N.of_nat (List.length ws) <= 4294967295)%N ->
  arr_len (index_props 0 ws) = N.of_nat (List.length ws).
Proof.
  induction ws as [|w ws IH] using rev_ind; intro Hb; [reflexivity|].
  rewrite length_app in Hb |- *. cbn [List.length] in Hb |- *.
  rewrite index_props_app. unfold arr_len. rewrite fold_left_app. cbn [fold_left fst].
  fold (arr_len (index_props 0 ws)). rewrite IH by lia.
  rewrite N.add_0_l. unfold array_index. rewrite parse_index_N_to_string by lia.
  rewrite (proj2 (N.ltb_lt _ _)) by lia. lia.
Qed.

Lemma assoc_index_props_none s ws i :
  (s + N.of_nat (List.length ws) <= 9007199254740991)%N -> (i < 9007199254740991)%N ->
  (i < s \/ s + N.of_nat (List.length ws) <= i)%N ->
  assoc (N_to_string i) (index_props s ws) = None.
Proof.
  revert s. induction ws as [|w ws IH]; intros s Hb Hi Hr; [reflexivity|].
  cbn [List.length] in Hb, Hr. cbn [index_props assoc].
  destruct (String.eqb (N_to_string i) (N_to_string s)) eqn:E.
  - apply String.eqb_eq, N_to_string_inj in E; lia.
  - apply IH; lia.
Qed.

Lemma assoc_index_props_nonindex k s ws :
  parse_index k = None -> (s + N.of_nat (List.length ws) <= 9007199254740991)%N ->
  assoc k (index_props s ws) = None.
Proof.
  revert s. induction ws as [|w ws IH]; intros s Hk Hb; [reflexivity|].
  cbn [List.length] in Hb. cbn [index_props assoc].
  destruct (String.eqb k (N_to_string s)) eqn:E.
  - apply String.eqb_eq in E. subst k. rewrite parse_index_N_to_string in Hk by lia. discriminate.
  - apply IH; [exact Hk | lia].
Qed.

(** [push] on an array literal appends, below [2^32 - 1] elements *)
Lemma push_js_array ws x :
  (N.of_nat (List.length ws) < 4294967295)%N ->
  push (js_array ws) x = Some (js_array (ws ++ [x])).
Proof.
  intro Hb. unfold js_array, push, arr_length.
  rewrite (assoc_index_props_nonindex "length" 0 ws eq_refl) by lia.
  rewrite arr_len_index_props by lia. rewrite N.max_0_r.
  rewrite (proj2 (N.ltb_lt _ _) Hb).
  rewrite put_absent by (apply assoc_index_props_none; lia).
  rewrite index_props_app, N.add_0_l. reflexivity.
Qed.

Lemma header_keys_app l kv :
  header_keys (l ++ [kv])
  = if existsb (String.eqb (Str.to_lower (fst kv))) (header_keys l) then header_keys l
    else (header_keys l ++ [Str.to_lower (fst kv)])%list.
Proof. unfold header_keys. rewrite fold_left_app. reflexivity. Qed.

Lemma header_values_app k l kv :
  header_values k (l ++ [kv])
  = (header_values k l ++ (if String.eqb (Str.to_lower (fst kv)) k then [snd kv] else []))%list.
Proof.
  unfold header_values. rewrite filter_app, map_app. cbn [filter].
  destruct (String.eqb (Str.to_lower (fst kv)) k); reflexivity.
Qed.

Lemma existsb_eqb_in k ks : existsb (String.eqb k) ks = true <-> In k ks.
Proof.
  rewrite existsb_exists. split.
  - intros [x [Hx E]]. apply String.eqb_eq in E. subst. exact Hx.
  - intro H. exists k. split; [exact H | apply String.eqb_refl].
Qed.

Lemma header_keys_in k l :
  In k (header_keys l) <-> exists kv, In kv l /\ Str.to_lower (fst kv) = k.
Proof.
  induction l as [|kv l IH] using rev_ind.
  - split; [intros []|intros [kv [[] _]]].
  - rewrite header_keys_app.
    assert (Hr : (exists kv', In kv' (l ++ [kv]) /\ Str.to_lower (fst kv') = k)
                 <-> (exists kv', In kv' l /\ Str.to_lower (fst kv') = k) \/ Str.to_lower (fst kv) = k).
    { split.
      - intros [kv' [Hin E]]. apply in_app_or in Hin as [Hin|[<-|[]]]; [left; eauto | right; exact E].
      - intros [[kv' [Hin E]] | E]; [exists kv'; split; [apply in_or_app; left|]; assumption|].
        exists kv. split; [apply in_or_app; right; left; reflexivity | exact E]. }
    rewrite Hr, <- IH.
    destruct (existsb (String.eqb (Str.to_lower (fst kv))) (header_keys l)) eqn:Ex.
    + apply existsb_eqb_in in Ex. split; [tauto|]. intros [H|<-]; assumption.
    + rewrite in_app_iff. cbn [In]. tauto.
Qed.

Lemma header_keys_nodup l : NoDup (header_keys l).
Proof.
  induction l as [|kv l IH] using rev_ind; [constructor|].
  rewrite header_keys_app.
  destruct (existsb (String.eqb (Str.to_lower (fst kv))) (header_keys l)) eqn:Ex; [exact IH|].
  apply NoDup_app; [exact IH | constructor; [intros []|constructor] |].
  intros x Hx [<-|[]]. apply (proj2 (existsb_eqb_in _ _)) in Hx. congruence.
Qed.

Lemma header_values_absent k l : ~ In k (header_keys l) -> header_values k l = [].
Proof.
  intro H. unfold header_values.
  enough (E : filter (fun kv => String.eqb (Str.to_lower (fst kv)) k) l = []) by (rewrite E; reflexivity).
  induction l as [|kv l IH]; [reflexivity|]. cbn [filter].
  destruct (String.eqb (Str.to_lower (fst kv)) k) eqn:E.
  - exfalso. apply H, header_keys_in. exists kv. split; [left; reflexivity | apply String.eqb_eq, E].
  - apply IH. intro Hin. apply H, header_keys_in. apply header_keys_in in Hin as [kv' [Hin E']].
    exists kv'. split; [right|]; assumption.
Qed.

Lemma header_values_length k l : List.length (header_values k l) <= List.length l.
Proof. unfold header_values. rewrite length_map. apply filter_length_le. Qed.

Lemma assoc_map_in {A} k (f : string -> A) g ks :
  In k ks -> assoc k (map (fun k' => (k', g (f k'))) ks) = Some (g (f k)).
Proof.
  induction ks as [|k' ks IH]; intro H; [destruct H|]. destruct H as [H|H]; cbn [map assoc].
  - subst. rewrite String.eqb_refl. reflexivity.
  - destruct (String.eqb k k') eqn:E; [apply String.eqb_eq in E; subst; reflexivity|]. exact (IH H).
Qed.

Lemma assoc_map_notin (f : string -> jv) ks k :
  ~ In k ks -> assoc k (map (fun k' => (k', f k')) ks) = None.
Proof.
  induction ks as [|k' ks IH]; intro H; [reflexivity|]. cbn [map assoc].
  destruct (String.eqb k k') eqn:E.
  - apply String.eqb_eq in E. subst. exfalso. apply H. left. reflexivity.
  - apply IH. intro Hin. apply H. right. exact Hin.
Qed.

Lemma put_map (f : string -> jv) ks k y :
  NoDup ks -> In k ks ->
  put k y (map (fun k' => (k', f k')) ks)
  = map (fun k' => (k', if String.eqb k' k then y else f k')) ks.
Proof.
  induction ks as [|k' ks IH]; intros Hnd Hin; [destruct Hin|].
  inversion Hnd as [|? ? Hn Hnd']. subst. cbn [map put].
  destruct (String.eqb k k') eqn:E.
  - apply String.eqb_eq in E. subst. rewrite String.eqb_refl. f_equal.
    apply map_ext_in. intros a Ha. destruct (String.eqb a k') eqn:E'; [|reflexivity].
    apply String.eqb_eq in E'. subst. contradiction.
  - destruct Hin as [Hin|Hin]; [subst; rewrite String.eqb_refl in E; discriminate|].
    rewrite (IH Hnd' Hin). f_equal. f_equal.
    destruct (String.eqb k' k) eqn:E'; [|reflexivity].
    apply String.eqb_eq in E'. subst. rewrite String.eqb_refl in E. discriminate.
Qed.

(** A request's headers, when their lowercased names are neither lodash
    deep paths (no [.] and no bracket pair) nor [__proto__],
    [constructor] or [prototype] and there are fewer than [2^32 - 1] of
    them, are extracted as one entry per distinct lowercased name, in
    order of first appearance: a name sent once holds its value as a
    string; a name sent [n >= 2] times holds an array of its first value
    followed by its third to [n]-th values, so its second value is always
    lost, whatever other headers come in between. *)
Theorem repeated_header_loses_second l :
  Forall (fun kv => is_deep_prop (Str.to_lower (fst kv)) = false
                    /\ is_proto_key (Str.to_lower (fst kv)) = false) l ->
  (N.of_nat (List.length l) < 4294967295)%N ->
  Headers.extract_headers l
  = Some (JObj false (map (fun k => (k, extracted_value (header_values k l))) (header_keys l))).
Proof.
  induction l as [|[k v] l IH] using rev_ind; intros Hf Hb; [reflexivity|].
  apply Forall_app in Hf as [Hf Hkv]. inversion Hkv as [|? ? [Hd Hp] _]. subst. cbn [fst snd] in Hd, Hp.
  rewrite length_app in Hb. cbn [List.length] in Hb.
  unfold Headers.extract_headers in *. rewrite fold_left_app. cbn [fold_left].
  rewrite IH by (assumption || lia).
  rewrite header_keys_app. cbn [fst snd].
  set (K := Str.to_lower k).
  destruct (existsb (String.eqb K) (header_keys l)) eqn:Ex.
  - apply existsb_eqb_in in Ex.
    rewrite (header_step_seen _ k v (extracted_value (header_values K l)) Hd Hp)
      by exact (assoc_map_in K (fun k' => header_values k' l) extracted_value _ Ex).
    assert (Hne : header_values K l <> []).
    { intro E. apply header_keys_in in Ex as [[k' v'] [Hin Ek]]. cbn [fst] in Ek.
      assert (Hin' : In v' (header_values K l)).
      { unfold header_values. apply (in_map snd _ (k', v')), filter_In. split; [exact Hin|].
        cbn [fst]. rewrite Ek. apply String.eqb_refl. }
      rewrite E in Hin'. destruct Hin'. }
    assert (Hvl := header_values_length K l).
    assert (Hx : exists x', (if is_array (extracted_value (header_values K l))
                             then push (extracted_value (header_values K l)) (JStr v)
                             else Some (JObj true [("0", extracted_value (header_values K l))]))
                            = Some x'
                         /\ x' = extracted_value (header_values K l ++ [v])).
    { destruct (header_values K l) as [|v1 [|v2 rest]] eqn:Ev; [contradiction| |].
      - eexists. split; reflexivity.
      - cbn [extracted_value is_array js_array index_props]. fold (js_array (JStr v1 :: map JStr rest)).
        cbn [List.length] in Hvl.
        rewrite push_js_array by (cbn [List.length]; rewrite length_map; lia).
        eexists. split; [reflexivity|]. cbn [app extracted_value]. rewrite map_app. reflexivity. }
    destruct Hx as [x' [-> ->]].
    rewrite (put_map (fun k' => extracted_value (header_values k' l)) _ _ _ (header_keys_nodup l) Ex).
    do 2 f_equal. apply map_ext. intro a. rewrite header_values_app. cbn [fst snd]. fold K.
    destruct (String.eqb a K) eqn:E1, (String.eqb K a) eqn:E2;
      try (rewrite String.eqb_sym, E1 in E2; discriminate).
    + apply String.eqb_eq in E1. subst a. reflexivity.
    + rewrite app_nil_r. reflexivity.
  - assert (Hn : ~ In K (header_keys l)) by (intro H; apply existsb_eqb_in in H; congruence).
    rewrite header_step_fresh by (try exact (assoc_map_notin _ _ _ Hn); assumption).
    rewrite map_app. cbn [map]. rewrite header_values_app, (header_values_absent K l Hn).
    cbn [fst snd]. rewrite String.eqb_refl. cbn [app extracted_value]. do 3 f_equal.
    apply map_ext_in. intros a Ha. rewrite header_values_app. cbn [fst]. fold K.
    destruct (String.eqb K a) eqn:E; [apply String.eqb_eq in E; subst; contradiction|].
    rewrite app_nil_r. reflexivity.
Qed.

Lemma repeated_header_loses_second_witness :
  Headers.extract_headers [("Accept", "a"); ("Host", "h"); ("accept", "b"); ("X-Id", "1"); ("Accept", "c")]
  = Some (JObj false [("accept", js_array [JStr "a"; JStr "c"]); ("host", JStr "h"); ("x-id", JStr "1")]).
Proof.
  refine (eq_trans (repeated_header_loses_second
            [("Accept", "a"); ("Host", "h"); ("accept", "b"); ("X-Id", "1"); ("Accept", "c")] _ _) _).
  - repeat constructor.
  - vm_compute. reflexivity.
  - vm_compute. reflexivity.
Defined.
